(** * AIchatpdf: the streaming chat consumer of [ChatBox]

    A shallow embedding of the two streaming [ChatBox] components of the
    front end (frontend/src/components/ChatBox.js, which leaves the frame loop
    on the [end] sentinel, and the later revision that also cancels the
    reader), together with the parts of the browser platform they call:
    JavaScript strings, the streaming UTF-8 [TextDecoder], the conversions
    applied to parsed JSON values, and the React state of the component. *)

From Stdlib Require Import ZArith Lia Bool String Ascii Strings.Byte DecimalString.
From stdpp Require Import base list.

Open Scope Z_scope.

(** ** JavaScript strings

    A JavaScript string is a sequence of UTF-16 code units. *)

Module JSString.

Definition jsstring := list Z.

(** An ASCII literal of the source, as code units. *)
Definition lit (s : string) : jsstring :=
  map (fun a => Z.of_N (N_of_ascii a)) (list_ascii_of_string s).

Definition str_eqb (a b : jsstring) : bool := bool_decide (a = b).

(** [s.startsWith(p)] *)
Fixpoint startsWith (s p : jsstring) : bool :=
  match p, s with
  | [], _ => true
  | _ :: _, [] => false
  | c :: p', d :: s' => (c =? d) && startsWith s' p'
  end.

(** [s.indexOf(p)]: the least position at which [p] occurs, or -1. *)
Fixpoint indexOf_from (i : Z) (s p : jsstring) : Z :=
  if startsWith s p then i
  else match s with
       | [] => -1
       | _ :: s' => indexOf_from (i + 1) s' p
       end.

Definition indexOf (s p : jsstring) : Z := indexOf_from 0 s p.

(** The clamping of a relative index of [slice] to [0 .. len]. *)
Definition relative_index (len k : Z) : Z :=
  if k <? 0 then Z.max (len + k) 0 else Z.min k len.

(** [s.slice(b, e)] *)
Definition slice (s : jsstring) (b e : Z) : jsstring :=
  let len := Z.of_nat (length s) in
  let from := relative_index len b in
  let to := relative_index len e in
  take (Z.to_nat (to - from)) (drop (Z.to_nat from) s).

(** [s.slice(b)] *)
Definition slice_from (s : jsstring) (b : Z) : jsstring :=
  slice s b (Z.of_nat (length s)).

(** WhiteSpace and LineTerminator code units, the ones [trim] strips. *)
Definition is_space (c : Z) : bool :=
  (c =? 0x09) || (c =? 0x0A) || (c =? 0x0B) || (c =? 0x0C) || (c =? 0x0D)
  || (c =? 0x20) || (c =? 0xA0) || (c =? 0x1680)
  || ((0x2000 <=? c) && (c <=? 0x200A))
  || (c =? 0x2028) || (c =? 0x2029) || (c =? 0x202F) || (c =? 0x205F)
  || (c =? 0x3000) || (c =? 0xFEFF).

Fixpoint trimStart (s : jsstring) : jsstring :=
  match s with
  | c :: s' => if is_space c then trimStart s' else s
  | [] => []
  end.

Definition trimEnd (s : jsstring) : jsstring := rev (trimStart (rev s)).

(** [s.trim()] *)
Definition trim (s : jsstring) : jsstring := trimEnd (trimStart s).

(** The string form of an integer Number, as a template literal prints
    it: its decimal digits, after a minus sign when it is negative. *)
Definition of_int (n : Z) : jsstring :=
  lit (NilZero.string_of_int (Z.to_int n)).

End JSString.
Export JSString.

(** ** The streaming UTF-8 decoder

    [new TextDecoder()] decodes UTF-8, replaces malformed input by U+FFFD and
    drops one leading byte order mark. With [{ stream: true }] the state of
    the decoder, which holds the bytes of an incomplete character, is kept
    from one call of [decode] to the next. *)

Module TextDecoder.

Record t := mk {
  code_point : Z;
  bytes_seen : Z;
  bytes_needed : Z;
  lower_boundary : Z;
  upper_boundary : Z;
  bom_seen : bool
}.

(** [new TextDecoder()] *)
Definition new : t := mk 0 0 0 0x80 0xBF false.

Definition reset (d : t) : t := mk 0 0 0 0x80 0xBF (bom_seen d).

(** A byte read when no character is in progress. *)
Definition lead (d : t) (b : Z) : t * list Z :=
  if b <=? 0x7F then (d, [b])
  else if (0xC2 <=? b) && (b <=? 0xDF) then
    (mk (Z.land b 0x1F) 0 1 0x80 0xBF (bom_seen d), [])
  else if (0xE0 <=? b) && (b <=? 0xEF) then
    (mk (Z.land b 0xF) 0 2
        (if b =? 0xE0 then 0xA0 else 0x80)
        (if b =? 0xED then 0x9F else 0xBF) (bom_seen d), [])
  else if (0xF0 <=? b) && (b <=? 0xF4) then
    (mk (Z.land b 0x7) 0 3
        (if b =? 0xF0 then 0x90 else 0x80)
        (if b =? 0xF4 then 0x8F else 0xBF) (bom_seen d), [])
  else (d, [0xFFFD]).

(** The UTF-8 decoder's handler: the code points one byte gives rise to.
    A byte that cannot continue the character in progress ends it with
    U+FFFD and is then read again as a first byte. *)
Definition handler (d : t) (b : Z) : t * list Z :=
  if bytes_needed d =? 0 then lead d b
  else if (b <? lower_boundary d) || (upper_boundary d <? b) then
    let '(d', out) := lead (reset d) b in (d', 0xFFFD :: out)
  else
    let cp := Z.lor (Z.shiftl (code_point d) 6) (Z.land b 0x3F) in
    if bytes_seen d + 1 =? bytes_needed d then (reset d, [cp])
    else (mk cp (bytes_seen d + 1) (bytes_needed d) 0x80 0xBF (bom_seen d), []).

(** The code units of a code point. *)
Definition code_units (cp : Z) : jsstring :=
  if cp <? 0x10000 then [cp]
  else [0xD800 + Z.shiftr (cp - 0x10000) 10;
        0xDC00 + Z.land (cp - 0x10000) 0x3FF].

(** Serialising one decoded code point: the first one is dropped when it
    is the byte order mark. *)
Definition emit (d : t) (cp : Z) : t * jsstring :=
  if bom_seen d then (d, code_units cp)
  else
    let d' := mk (code_point d) (bytes_seen d) (bytes_needed d)
                 (lower_boundary d) (upper_boundary d) true in
    if cp =? 0xFEFF then (d', []) else (d', code_units cp).

Fixpoint emit_all (d : t) (cps : list Z) : t * jsstring :=
  match cps with
  | [] => (d, [])
  | cp :: cps' =>
      let '(d1, s1) := emit d cp in
      let '(d2, s2) := emit_all d1 cps' in
      (d2, s1 ++ s2)
  end.

Definition byte_value (b : Byte.byte) : Z := Z.of_N (Byte.to_N b).

(** [decoder.decode(value, { stream: true })]: the text the chunk adds,
    and the decoder afterwards. *)
Fixpoint decode (d : t) (value : list Byte.byte) : t * jsstring :=
  match value with
  | [] => (d, [])
  | b :: value' =>
      let '(d1, cps) := handler d (byte_value b) in
      let '(d2, s1) := emit_all d1 cps in
      let '(d3, s2) := decode d2 value' in
      (d3, s1 ++ s2)
  end.

End TextDecoder.

(** ** Parsed JSON values and their conversions *)

#[warnings="-register-all"]
Inductive JSValue :=
| JUndefined
| JNull
| JBool (b : bool)
| JNumber (literal : jsstring)
| JString (s : jsstring)
| JArray (items : list JSValue)
| JObject (members : list (jsstring * JSValue)).

(** What the component takes from the browser. [JSON_parse] is [JSON.parse]
    on a string, [None] when it throws a SyntaxError. A Number is kept as
    the literal it was read from; [Number_truthy] and [Number_toString] are
    the truth value and the string form of the binary64 value of a literal.
    [abort_message] is the [message] of the AbortError with which a pending
    [fetch] or [read] rejects once its signal is aborted. *)
Class Platform := {
  JSON_parse : jsstring -> option JSValue;
  Number_truthy : jsstring -> bool;
  Number_toString : jsstring -> jsstring;
  abort_message : jsstring
}.

(** The members of an object, by key: of two members with one key
    [JSON.parse] keeps the later. *)
Fixpoint own_property (members : list (jsstring * JSValue)) (key : jsstring)
  : option JSValue :=
  match members with
  | [] => None
  | (k, v) :: members' =>
      match own_property members' key with
      | Some v' => Some v'
      | None => if str_eqb k key then Some v else None
      end
  end.

(** [v?.key] for a key that no built-in prototype defines ([delta],
    [error]): only an object can have it. *)
Definition optional_get (v : JSValue) (key : jsstring) : JSValue :=
  match v with
  | JObject members =>
      match own_property members key with
      | Some x => x
      | None => JUndefined
      end
  | _ => JUndefined
  end.

Section Conversions.
Context `{Platform}.

Definition ToBoolean (v : JSValue) : bool :=
  match v with
  | JUndefined | JNull => false
  | JBool b => b
  | JNumber l => Number_truthy l
  | JString s => negb (str_eqb s [])
  | JArray _ | JObject _ => true
  end.

(** The string that [+] and a template literal make of a value; [None]
    when the conversion throws a TypeError: an object parsed from JSON
    with a member [toString] has no callable [toString] or [valueOf] that
    gives a primitive. An array is joined with commas, [null] elements
    giving the empty string. *)
Fixpoint ToString (v : JSValue) : option jsstring :=
  match v with
  | JUndefined => Some (lit "undefined")
  | JNull => Some (lit "null")
  | JBool true => Some (lit "true")
  | JBool false => Some (lit "false")
  | JNumber l => Some (Number_toString l)
  | JString s => Some s
  | JArray items =>
      (fix join (l : list JSValue) : option jsstring :=
         match l with
         | [] => Some []
         | x :: l' =>
             match (match x with
                    | JUndefined | JNull => Some []
                    | _ => ToString x
                    end) with
             | None => None
             | Some s =>
                 match l' with
                 | [] => Some s
                 | _ :: _ =>
                     match join l' with
                     | None => None
                     | Some r => Some (s ++ lit "," ++ r)
                     end
                 end
             end
         end) items
  | JObject members =>
      match own_property members (lit "toString") with
      | Some _ => None
      | None => Some (lit "[object Object]")
      end
  end.

End Conversions.

(** ** The conversation *)

Inductive Role := user | ai.

Record Message := { role : Role; text : jsstring }.

(** A state updater passed to [setMessages] runs when React renders; if it
    throws, the render fails. These are the two ways the updaters of the
    component can throw. *)
Inductive Fault :=
| LastUndefined   (* [out[out.length - 1]] is undefined and [.text] is read *)
| NotPrimitive.   (* a value has no string form *)

Inductive Outcome (A : Type) :=
| Ok (a : A)
| Crash (f : Fault).
Arguments Ok {A} a.
Arguments Crash {A} f.

Definition bind {A B} (m : Outcome A) (k : A -> Outcome B) : Outcome B :=
  match m with
  | Ok a => k a
  | Crash f => Crash f
  end.

Notation "x <-- m ;; k" := (bind m (fun x => k))
  (at level 63, m at next level, right associativity).

(** [out[i]] *)
Definition at_index {A} (out : list A) (i : Z) : option A :=
  if i <? 0 then None else out !! Z.to_nat i.

(** The updater of the delta branch and of the plain text fallback:
<<
  prev => { const out = [...prev];
            out[out.length - 1] =
              { ...out[out.length - 1],
                text: (out[out.length - 1].text || "") + s };
            return out; }
>>
    The text of the last message is read before [s] is converted. *)
Definition append_to_last (s : option jsstring) (prev : list Message)
  : Outcome (list Message) :=
  let out := prev in
  let i := Z.of_nat (length out) - 1 in
  match at_index out i with
  | None => Crash LastUndefined
  | Some last =>
      match s with
      | None => Crash NotPrimitive
      | Some s =>
          Ok (<[Z.to_nat i := {| role := role last; text := text last ++ s |}]> out)
      end
  end.

(** The updater of the error branch and of the [catch] clause:
    [prev => [...prev, { role: "ai", text: `Error: ${e}` }]] *)
Definition append_error (e : option jsstring) (prev : list Message)
  : Outcome (list Message) :=
  match e with
  | None => Crash NotPrimitive
  | Some e => Ok (prev ++ [{| role := ai; text := lit "Error: " ++ e |}])
  end.

(** Ghost history: the updates that frames have made to the conversation,
    in the order they were applied. *)
Inductive Applied :=
| DeltaApplied (s : jsstring)
| ErrorShown (s : jsstring).

Record Chat := {
  chat_messages : list Message;
  chat_applied : list Applied
}.

Definition chat_delta (s : option jsstring) (c : Chat) : Outcome Chat :=
  out <-- append_to_last s (chat_messages c) ;;
  Ok {| chat_messages := out;
        chat_applied := chat_applied c ++ [DeltaApplied (default [] s)] |}.

Definition chat_error (e : option jsstring) (c : Chat) : Outcome Chat :=
  out <-- append_error e (chat_messages c) ;;
  Ok {| chat_messages := out;
        chat_applied := chat_applied c ++ [ErrorShown (default [] e)] |}.

(** ** The frame loop *)

Definition delimiter : jsstring := [10; 10].

(** How the body of the inner [while] loop ends for one frame. *)
Inductive FrameResult :=
| Continue (c : Chat)
| Break.

Record LoopExit := {
  exit_buffer : jsstring;
  exit_chat : Chat;
  saw_end : bool
}.

Section Consumer.
Context `{Platform}.

(** What the loop does with the payload of a [data:] frame, from
    [if (data === "end")] on. *)
Definition on_data (data : jsstring) (c : Chat) : Outcome FrameResult :=
  if str_eqb data (lit "end") then Ok Break
  else
    match JSON_parse data with
    | Some parsed =>
        if ToBoolean (optional_get parsed (lit "delta")) then
          c' <-- chat_delta (ToString (optional_get parsed (lit "delta"))) c ;;
          Ok (Continue c')
        else if ToBoolean (optional_get parsed (lit "error")) then
          c' <-- chat_error (ToString (optional_get parsed (lit "error"))) c ;;
          Ok (Continue c')
        else Ok (Continue c)
    | None =>
        c' <-- chat_delta (Some data) c ;;
        Ok (Continue c')
    end.

(** The body of the inner loop, from [if (!raw) continue;] on. *)
Definition frame_body (raw : jsstring) (c : Chat) : Outcome FrameResult :=
  if str_eqb raw [] then Ok (Continue c)
  else if startsWith raw (lit "event:") then Ok (Continue c)
  else if startsWith raw (lit "data:") then
    let data := trim (slice_from raw 5) in
    on_data data c
  else Ok (Continue c).

(** [while ((idx = buffer.indexOf("\n\n")) !== -1) { ... }]. Every
    iteration removes at least the two code units of a delimiter from the
    buffer, so [length buffer] iterations are enough. *)
Fixpoint frame_loop (fuel : nat) (buffer : jsstring) (c : Chat)
  : Outcome LoopExit :=
  match fuel with
  | O => Ok {| exit_buffer := buffer; exit_chat := c; saw_end := false |}
  | S fuel' =>
      let idx := indexOf buffer delimiter in
      if idx =? -1 then
        Ok {| exit_buffer := buffer; exit_chat := c; saw_end := false |}
      else
        let raw := trim (slice buffer 0 idx) in
        let buffer := slice_from buffer (idx + 2) in
        r <-- frame_body raw c ;;
        match r with
        | Continue c' => frame_loop fuel' buffer c'
        | Break => Ok {| exit_buffer := buffer; exit_chat := c; saw_end := true |}
        end
  end.

Definition frames (buffer : jsstring) (c : Chat) : Outcome LoopExit :=
  frame_loop (length buffer) buffer c.

End Consumer.

(** ** The component

    [sendMessage] is an async function: it runs until it awaits, and is
    resumed by the browser when the awaited promise settles. [Phase] is the
    place where the one call that can be in flight is suspended. *)

Inductive Phase :=
| Idle
| AwaitFetch
| AwaitRead (decoder : TextDecoder.t) (buffer : jsstring).

Record State := {
  messages : list Message;
  input : jsstring;
  loading : bool;
  abortRef : bool;             (* [abortRef.current] holds a controller *)
  phase : Phase;
  requests : list jsstring;    (* ghost: the question of every fetch issued *)
  applied : list Applied       (* ghost: see [Applied] *)
}.

(** The two revisions of the component differ in the [end] branch only. *)
Inductive Variant :=
| BreakOnly       (* [if (data === "end") { break; }] *)
| CancelReader.   (* [try { await reader.cancel(); } catch {} break;] *)

Inductive Event :=
| Typed (value : jsstring)             (* [onChange]: [setInput(e.target.value)] *)
| Send                                 (* [sendMessage()] *)
| Stop                                 (* [stopStreaming()] *)
| Response (status : Z) (body : bool)  (* [fetch] resolves; [body]: [resp.body] is not null *)
| Rejected (message : jsstring)        (* the awaited promise rejects with [e] *)
| Chunk (value : list Byte.byte)       (* [read()] resolves with [{ value, done: false }] *)
| Done.                                (* [read()] resolves with [{ done: true }] *)

Definition greeting : jsstring :=
  lit "Hello! Ask me anything about Germany" ++ [0x2019] ++ lit "s Fiscal Code.".

(** The state of a freshly mounted [ChatBox]. *)
Definition initial : State :=
  {| messages := [{| role := ai; text := greeting |}];
     input := [];
     loading := false;
     abortRef := false;
     phase := Idle;
     requests := [];
     applied := [] |}.

(** [resp.ok] *)
Definition ok (status : Z) : bool := (200 <=? status) && (status <=? 299).

(** [finally { setLoading(false); abortRef.current = null; }] *)
Definition finally (st : State) : State :=
  {| messages := messages st;
     input := input st;
     loading := false;
     abortRef := false;
     phase := Idle;
     requests := requests st;
     applied := applied st |}.

(** [catch (e) { setMessages(prev => [...prev, { role: "ai", text:
    `Error: ${e.message}` }]); }], followed by [finally]. *)
Definition catch (message : jsstring) (st : State) : Outcome State :=
  out <-- append_error (Some message) (messages st) ;;
  Ok (finally {| messages := out;
                 input := input st;
                 loading := loading st;
                 abortRef := abortRef st;
                 phase := phase st;
                 requests := requests st;
                 applied := applied st |}).

Definition suspend (p : Phase) (c : Chat) (st : State) : State :=
  {| messages := chat_messages c;
     input := input st;
     loading := loading st;
     abortRef := abortRef st;
     phase := p;
     requests := requests st;
     applied := chat_applied c |}.

Definition chat_of (st : State) : Chat :=
  {| chat_messages := messages st; chat_applied := applied st |}.

Section Component.
Context `{Platform}.

(** [sendMessage], up to [await fetch(...)]. *)
Definition sendMessage (st : State) : State :=
  if str_eqb (trim (input st)) [] || loading st then st
  else
    let question := trim (input st) in
    {| messages := messages st ++ [{| role := user; text := question |};
                                   {| role := ai; text := [] |}];
       input := [];
       loading := true;
       abortRef := true;
       phase := AwaitFetch;
       requests := requests st ++ [question];
       applied := applied st |}.

(** [sendMessage] resumed after [await fetch(...)]: the status check,
    then the reader, the decoder and the empty buffer, up to the first
    [await reader.read()]. *)
Definition on_response (status : Z) (body : bool) (st : State) : Outcome State :=
  if negb (ok status) || negb body then
    catch (lit "HTTP " ++ of_int status) st
  else Ok (suspend (AwaitRead TextDecoder.new []) (chat_of st) st).

(** [sendMessage] resumed after [await reader.read()] with a chunk: one
    turn of the outer loop. After [end] the first revision goes on to the
    next [read()]; in the later one the reader is cancelled, the next
    [read()] gives [done] and the call ends. *)
Definition on_chunk (v : Variant) (decoder : TextDecoder.t) (buffer : jsstring)
    (value : list Byte.byte) (st : State) : Outcome State :=
  let '(decoder, s) := TextDecoder.decode decoder value in
  let buffer := buffer ++ s in
  e <-- frames buffer (chat_of st) ;;
  match v, saw_end e with
  | CancelReader, true => Ok (finally (suspend Idle (exit_chat e) st))
  | _, _ => Ok (suspend (AwaitRead decoder (exit_buffer e)) (exit_chat e) st)
  end.

(** [stopStreaming]: [if (abortRef.current) abortRef.current.abort();].
    The promise that [sendMessage] awaits then rejects with the
    AbortError. *)
Definition stopStreaming (st : State) : Outcome State :=
  if abortRef st then
    match phase st with
    | Idle => Ok st
    | _ => catch abort_message st
    end
  else Ok st.

(** One event. An event for which nothing waits leaves the state as it
    is: a settled promise resumes [sendMessage] only where it is awaited,
    and the later revision has no [stopStreaming]. *)
Definition step (v : Variant) (st : State) (ev : Event) : Outcome State :=
  match ev with
  | Typed value =>
      Ok {| messages := messages st;
            input := value;
            loading := loading st;
            abortRef := abortRef st;
            phase := phase st;
            requests := requests st;
            applied := applied st |}
  | Send => Ok (sendMessage st)
  | Stop =>
      match v with
      | BreakOnly => stopStreaming st
      | CancelReader => Ok st
      end
  | Response status body =>
      match phase st with
      | AwaitFetch => on_response status body st
      | _ => Ok st
      end
  | Rejected message =>
      match phase st with
      | Idle => Ok st
      | _ => catch message st
      end
  | Chunk value =>
      match phase st with
      | AwaitRead decoder buffer => on_chunk v decoder buffer value st
      | _ => Ok st
      end
  | Done =>
      match phase st with
      | AwaitRead _ _ => Ok (finally st)
      | _ => Ok st
      end
  end.

Fixpoint run (v : Variant) (st : State) (evs : list Event) : Outcome State :=
  match evs with
  | [] => Ok st
  | ev :: evs' => st' <-- step v st ev ;; run v st' evs'
  end.

End Component.

(** ** A reference platform

    A [JSON.parse] for running the component on concrete streams: a lexer
    and a stack parser for the JSON grammar, both by one pass over their
    input. *)

Module Reference.

Inductive Token :=
| TLBrace | TRBrace | TLBracket | TRBracket | TColon | TComma
| TString (s : jsstring)
| TNumber (l : jsstring)
| TWord (w : jsstring).

(** Where the lexer is; accumulated code units are kept in reverse. *)
Inductive Lex :=
| Between
| InString (acc : jsstring)
| InEscape (acc : jsstring)
| InUnicode (acc : jsstring) (hex : list Z)
| InNumber (acc : jsstring)
| InWord (acc : jsstring).

Definition is_digit (c : Z) : bool := (48 <=? c) && (c <=? 57).

Definition is_number_char (c : Z) : bool :=
  is_digit c || (c =? 45) || (c =? 43) || (c =? 46) || (c =? 101) || (c =? 69).

Definition is_letter (c : Z) : bool := (97 <=? c) && (c <=? 122).

Definition is_json_space (c : Z) : bool :=
  (c =? 0x20) || (c =? 0x09) || (c =? 0x0A) || (c =? 0x0D).

Definition hex_value (c : Z) : option Z :=
  if is_digit c then Some (c - 48)
  else if (97 <=? c) && (c <=? 102) then Some (c - 87)
  else if (65 <=? c) && (c <=? 70) then Some (c - 55)
  else None.

(** The character an escape stands for. *)
Definition escape (c : Z) : option Z :=
  if c =? 34 then Some 34            (* quotation mark *)
  else if c =? 92 then Some 92       (* reverse solidus *)
  else if c =? 47 then Some 47       (* solidus *)
  else if c =? 98 then Some 8        (* b *)
  else if c =? 102 then Some 12      (* f *)
  else if c =? 110 then Some 10      (* n *)
  else if c =? 114 then Some 13      (* r *)
  else if c =? 116 then Some 9       (* t *)
  else None.

(** A code unit read between tokens. *)
Definition lex_between (c : Z) : option (Lex * list Token) :=
  if is_json_space c then Some (Between, [])
  else if c =? 123 then Some (Between, [TLBrace])
  else if c =? 125 then Some (Between, [TRBrace])
  else if c =? 91 then Some (Between, [TLBracket])
  else if c =? 93 then Some (Between, [TRBracket])
  else if c =? 58 then Some (Between, [TColon])
  else if c =? 44 then Some (Between, [TComma])
  else if c =? 34 then Some (InString [], [])
  else if is_number_char c then Some (InNumber [c], [])
  else if is_letter c then Some (InWord [c], [])
  else None.

Definition lex_step (st : Lex) (c : Z) : option (Lex * list Token) :=
  match st with
  | Between => lex_between c
  | InString acc =>
      if c =? 34 then Some (Between, [TString (rev acc)])
      else if c =? 92 then Some (InEscape acc, [])
      else if c <? 0x20 then None
      else Some (InString (c :: acc), [])
  | InEscape acc =>
      if c =? 117 then Some (InUnicode acc [], [])
      else match escape c with
           | Some e => Some (InString (e :: acc), [])
           | None => None
           end
  | InUnicode acc hex =>
      match hex_value c with
      | None => None
      | Some h =>
          match hex with
          | [a; b; d] =>
              Some (InString ((((a * 16 + b) * 16 + d) * 16 + h) :: acc), [])
          | _ => Some (InUnicode acc (hex ++ [h]), [])
          end
      end
  | InNumber acc =>
      if is_number_char c then Some (InNumber (c :: acc), [])
      else match lex_between c with
           | Some (st', ts) => Some (st', TNumber (rev acc) :: ts)
           | None => None
           end
  | InWord acc =>
      if is_letter c then Some (InWord (c :: acc), [])
      else match lex_between c with
           | Some (st', ts) => Some (st', TWord (rev acc) :: ts)
           | None => None
           end
  end.

Fixpoint lex (st : Lex) (s : jsstring) : option (list Token) :=
  match s with
  | [] =>
      match st with
      | Between => Some []
      | InNumber acc => Some [TNumber (rev acc)]
      | InWord acc => Some [TWord (rev acc)]
      | _ => None
      end
  | c :: s' =>
      match lex_step st c with
      | None => None
      | Some (st', ts) =>
          match lex st' s' with
          | None => None
          | Some ts' => Some (ts ++ ts')
          end
      end
  end.

(** The number grammar: an optional minus sign; a zero, or a digit from
    1 to 9 and any digits; optionally a point and digits; optionally an
    exponent mark, a sign and digits. *)
Inductive Num :=
| NStart | NMinus | NZero | NInt | NDot | NFrac | NExp | NExpSign | NExpDigits.

Definition num_step (st : Num) (c : Z) : option Num :=
  match st with
  | NStart => if c =? 45 then Some NMinus
              else if c =? 48 then Some NZero
              else if is_digit c then Some NInt else None
  | NMinus => if c =? 48 then Some NZero
              else if is_digit c then Some NInt else None
  | NZero => if c =? 46 then Some NDot
             else if (c =? 101) || (c =? 69) then Some NExp else None
  | NInt => if is_digit c then Some NInt
            else if c =? 46 then Some NDot
            else if (c =? 101) || (c =? 69) then Some NExp else None
  | NDot => if is_digit c then Some NFrac else None
  | NFrac => if is_digit c then Some NFrac
             else if (c =? 101) || (c =? 69) then Some NExp else None
  | NExp => if (c =? 43) || (c =? 45) then Some NExpSign
            else if is_digit c then Some NExpDigits else None
  | NExpSign => if is_digit c then Some NExpDigits else None
  | NExpDigits => if is_digit c then Some NExpDigits else None
  end.

Fixpoint num_run (st : Num) (l : jsstring) : bool :=
  match l with
  | [] => match st with
          | NZero | NInt | NFrac | NExpDigits => true
          | _ => false
          end
  | c :: l' => match num_step st c with
               | Some st' => num_run st' l'
               | None => false
               end
  end.

Definition scalar (t : Token) : option JSValue :=
  match t with
  | TString s => Some (JString s)
  | TNumber l => if num_run NStart l then Some (JNumber l) else None
  | TWord w =>
      if str_eqb w (lit "true") then Some (JBool true)
      else if str_eqb w (lit "false") then Some (JBool false)
      else if str_eqb w (lit "null") then Some JNull
      else None
  | _ => None
  end.

(** An array or object being read: what it holds so far, in reverse, and
    for an object the key whose value is awaited. *)
Inductive Open :=
| OpenArray (items : list JSValue)
| OpenObject (members : list (jsstring * JSValue)) (key : jsstring).

Inductive Mode :=
| WantValue | WantValueOrClose | WantKeyOrClose | WantKey | WantColon
| AfterValue
| Finished (v : JSValue).

(** A value is complete: it goes into the innermost open array or
    object, or is the result. *)
Definition complete (v : JSValue) (stack : list Open) : Mode * list Open :=
  match stack with
  | [] => (Finished v, [])
  | OpenArray items :: stack' => (AfterValue, OpenArray (v :: items) :: stack')
  | OpenObject members key :: stack' =>
      (AfterValue, OpenObject ((key, v) :: members) key :: stack')
  end.

Definition want_value (t : Token) (stack : list Open) : option (Mode * list Open) :=
  match t with
  | TLBracket => Some (WantValueOrClose, OpenArray [] :: stack)
  | TLBrace => Some (WantKeyOrClose, OpenObject [] [] :: stack)
  | _ => match scalar t with
         | Some v => Some (complete v stack)
         | None => None
         end
  end.

Definition want_key (t : Token) (stack : list Open) : option (Mode * list Open) :=
  match t, stack with
  | TString k, OpenObject members _ :: stack' =>
      Some (WantColon, OpenObject members k :: stack')
  | _, _ => None
  end.

Definition parse_step (m : Mode) (stack : list Open) (t : Token)
  : option (Mode * list Open) :=
  match m with
  | WantValue => want_value t stack
  | WantValueOrClose =>
      match t, stack with
      | TRBracket, OpenArray items :: stack' =>
          Some (complete (JArray (rev items)) stack')
      | _, _ => want_value t stack
      end
  | WantKeyOrClose =>
      match t, stack with
      | TRBrace, OpenObject members _ :: stack' =>
          Some (complete (JObject (rev members)) stack')
      | _, _ => want_key t stack
      end
  | WantKey => want_key t stack
  | WantColon => match t with
                 | TColon => Some (WantValue, stack)
                 | _ => None
                 end
  | AfterValue =>
      match t, stack with
      | TComma, OpenArray _ :: _ => Some (WantValue, stack)
      | TRBracket, OpenArray items :: stack' =>
          Some (complete (JArray (rev items)) stack')
      | TComma, OpenObject _ _ :: _ => Some (WantKey, stack)
      | TRBrace, OpenObject members _ :: stack' =>
          Some (complete (JObject (rev members)) stack')
      | _, _ => None
      end
  | Finished _ => None
  end.

Fixpoint parse (m : Mode) (stack : list Open) (ts : list Token) : option JSValue :=
  match ts with
  | [] => match m with
          | Finished v => Some v
          | _ => None
          end
  | t :: ts' => match parse_step m stack t with
                | Some (m', stack') => parse m' stack' ts'
                | None => None
                end
  end.

Definition json_parse (s : jsstring) : option JSValue :=
  match lex Between s with
  | Some ts => parse WantValue [] ts
  | None => None
  end.

(** The digits of the literal before the exponent; the Number is zero
    when none of them is (a literal that underflows apart). *)
Fixpoint has_nonzero_digit (l : jsstring) : bool :=
  match l with
  | [] => false
  | c :: l' =>
      if (c =? 101) || (c =? 69) then false
      else ((49 <=? c) && (c <=? 57)) || has_nonzero_digit l'
  end.

(** The string form of a literal: exact for integer literals without
    fraction or exponent below 2^53; the streams run below hold no
    number. *)
Definition integer_toString (l : jsstring) : jsstring :=
  if has_nonzero_digit l then l else [48].

Definition browser : Platform :=
  {| JSON_parse := json_parse;
     Number_truthy := has_nonzero_digit;
     Number_toString := integer_toString;
     abort_message := lit "signal is aborted without reason" |}.

(** The bytes of a stream, written as an ASCII string in which an
    apostrophe stands for a quotation mark and a vertical bar for a line
    feed. *)
Definition wire (s : string) : list Byte.byte :=
  map (fun b => match b with
                | x27 => x22
                | x7c => x0a
                | _ => b
                end) (list_byte_of_string s).

(** The text such bytes decode to. *)
Definition text_of (s : string) : jsstring :=
  snd (TextDecoder.decode TextDecoder.new (wire s)).

End Reference.

(** ** Vocabulary of the properties *)

(** The events that settle a promise, as opposed to what the user does. *)
Definition is_network (ev : Event) : bool :=
  match ev with
  | Response _ _ | Rejected _ | Chunk _ | Done => true
  | Typed _ | Send | Stop => false
  end.

Definition is_delta (a : Applied) : bool :=
  match a with
  | DeltaApplied _ => true
  | ErrorShown _ => false
  end.

(** The text that the deltas of a history add up to. *)
Definition delta_text (hist : list Applied) : jsstring :=
  concat (map (fun a => match a with
                        | DeltaApplied s => s
                        | ErrorShown _ => []
                        end) hist).

Definition with_text (m : Message) (s : jsstring) : Message :=
  {| role := role m; text := text m ++ s |}.

(** Whether the frame loop run on a chunk reaches an [end] frame. *)
Definition sees_end `{Platform} (st : State) (value : list Byte.byte) : bool :=
  match phase st with
  | AwaitRead decoder buffer =>
      let '(_, s) := TextDecoder.decode decoder value in
      match frames (buffer ++ s) (chat_of st) with
      | Ok e => saw_end e
      | Crash _ => false
      end
  | _ => false
  end.

(** No complete frame waits in the buffer of a call that waits for a
    chunk. A state in which no call waits for a chunk has no buffer, and
    nothing is asked of it. *)
Definition drained (st : State) : Prop :=
  match phase st with
  | AwaitRead _ buffer => indexOf buffer delimiter = -1
  | _ => True
  end.

(** A session that has its response and waits for the first chunk. *)
Definition opened (question : jsstring) : State :=
  {| messages := messages initial ++ [{| role := user; text := question |};
                                      {| role := ai; text := [] |}];
     input := [];
     loading := true;
     abortRef := true;
     phase := AwaitRead TextDecoder.new [];
     requests := [question];
     applied := [] |}.

(** The events of one call of [sendMessage] on a stream that opens with
    status 200 and closes after its chunks. *)
Definition session (question : jsstring) (chunks : list (list Byte.byte))
  : list Event :=
  [Typed question; Send; Response 200 true] ++ map Chunk chunks ++ [Done].

(** A state in which [messages] is not empty and the flags say whether a
    call is suspended. *)
Definition consistent (st : State) : Prop :=
  messages st <> [] /\
  (phase st = Idle -> loading st = false /\ abortRef st = false) /\
  (phase st <> Idle -> loading st = true /\ abortRef st = true).

(** What the component shows: the text of every message. *)
Definition transcript (st : State) : list (Role * jsstring) :=
  map (fun m => (role m, text m)) (messages st).

(** What a run leaves to be seen: the transcript, the history and the
    [loading] flag; [None] when a render has failed. *)
Definition shown (o : Outcome State)
  : option (list (Role * jsstring) * list Applied * bool) :=
  match o with
  | Ok st => Some (transcript st, applied st, loading st)
  | Crash _ => None
  end.

(** ** States and frames of the examples *)

Module Examples.
Import Reference.

(** The user has typed a question. *)
Definition typed : State :=
  {| messages := messages initial;
     input := lit " hi ";
     loading := false;
     abortRef := false;
     phase := Idle;
     requests := [];
     applied := [] |}.

(** The question is sent and the first delta of the answer is there. *)
Definition receiving_events : list Event :=
  [Typed (lit " hi "); Send; Response 200 true;
   Chunk (wire "data: {'delta':'Hel'}||")].

Definition receiving : State :=
  {| messages := messages initial ++ [{| role := user; text := lit "hi" |};
                                      {| role := ai; text := lit "Hel" |}];
     input := [];
     loading := true;
     abortRef := true;
     phase := AwaitRead (TextDecoder.mk 0 0 0 0x80 0xBF true) [];
     requests := [lit "hi"];
     applied := [DeltaApplied (lit "Hel")] |}.

(** The conversation of a session before its first frame. *)
Definition fresh : Chat :=
  {| chat_messages := messages (opened (lit "hi")); chat_applied := [] |}.

(** Frames, as the loop cuts them out of the buffer. *)
Definition event_frame : jsstring := text_of "event: message|data: {'delta':'Hi'}".
Definition delta_frame : jsstring := text_of "data: {'delta':'Hi'}".
Definition comment_frame : jsstring := text_of ": keep-alive".
Definition text_frame : jsstring := text_of "data: plain text reply".

(** The first line of every transcript. *)
Definition hello : Role * jsstring := (ai, greeting).

End Examples.

(** ** More vocabulary: growth, framing, decoding *)

(** [new] keeps every message of [old] but the last as it is, keeps the
    role of the last and has its text as a prefix of the new text, and may
    hold more messages after it. *)
Fixpoint grown (old new : list Message) : Prop :=
  match old, new with
  | [], _ => True
  | _ :: _, [] => False
  | [m], m' :: _ => role m' = role m /\ exists s, text m' = text m ++ s
  | m :: old', m' :: new' => m' = m /\ grown old' new'
  end.

(** The wire form of a sequence of payloads, each in a [data:] frame. *)
Definition data_frames (payloads : list jsstring) : jsstring :=
  concat (map (fun p => lit "data: " ++ p ++ delimiter) payloads).

(** The payload handler on a sequence of payloads, in order, up to the
    first [end]; [tail] is what follows the frames in the buffer. *)
Fixpoint dispatch `{Platform} (payloads : list jsstring) (tail : jsstring)
    (c : Chat) : Outcome LoopExit :=
  match payloads with
  | [] => Ok {| exit_buffer := tail; exit_chat := c; saw_end := false |}
  | p :: rest =>
      r <-- on_data (trim p) c ;;
      match r with
      | Continue c' => dispatch rest tail c'
      | Break => Ok {| exit_buffer := data_frames rest ++ tail;
                       exit_chat := c; saw_end := true |}
      end
  end.

(** The text that successive calls of [decoder.decode(value, { stream:
    true })] add to the buffer, and the decoder after them. *)
Fixpoint decode_chunks (d : TextDecoder.t) (chunks : list (list Byte.byte))
  : TextDecoder.t * jsstring :=
  match chunks with
  | [] => (d, [])
  | value :: chunks' =>
      let '(d1, s1) := TextDecoder.decode d value in
      let '(d2, s2) := decode_chunks d1 chunks' in
      (d2, s1 ++ s2)
  end.

(** The number of line feeds in a text, and of line feed bytes in a
    chunk. *)
Definition line_feeds (s : list Z) : nat :=
  length (filter (fun c => c = 10) s).

Definition line_feed_bytes (value : list Byte.byte) : nat :=
  length (filter (fun b => TextDecoder.byte_value b = 10) value).

(** Whether a line feed comes last: the last element of [s], or what
    comes before [s] when [s] is empty. *)
Definition feed_last (prev : bool) (s : list Z) : bool :=
  fold_left (fun _ u => u =? 10) s prev.

(** For each line feed of [s], in order, whether it comes directly after
    another line feed, and so completes a delimiter; [prev] says whether a
    line feed comes directly before [s]. *)
Fixpoint feeds_after_feed (prev : bool) (s : list Z) : list bool :=
  match s with
  | [] => []
  | u :: s' =>
      if u =? 10 then prev :: feeds_after_feed true s'
      else feeds_after_feed false s'
  end.

(** The line feeds of a text or of the bytes of a stream, each with
    whether it ends a blank line. *)
Definition blank_lines (s : list Z) : list bool := feeds_after_feed false s.

(** Growth, by the last message of the old conversation. *)
Definition grows_from (old new : list Message) : Prop :=
  forall init m, old = init ++ [m] ->
  exists s rest, new = init ++ with_text m s :: rest.

(** ** The base of the API

    [getApiBase] of api.js, which the later revision of the chat and the
    fact components import as [API_BASE], and the expression that the first
    revision has in its place. *)

Module Api.

(** [process.env.REACT_APP_API_BASE]: a string, or [undefined]. *)
Definition Env := option jsstring.

(** [s.replace(/\/$/, "")]: the pattern has no [m] flag, so [$] is the
    end of the string, and the one solidus that can match is the last code
    unit. *)
Definition strip_slash (s : jsstring) : jsstring :=
  match rev s with
  | 47 :: r => rev r
  | _ => s
  end.

(** [getApiBase()]; [!base] holds of [undefined] and of the empty
    string. *)
Definition getApiBase (base : Env) : jsstring :=
  match base with
  | None => lit "http://localhost:5000"
  | Some b =>
      if str_eqb b [] then lit "http://localhost:5000" else strip_slash b
  end.

(** [process.env.REACT_APP_API_BASE || "http://localhost:8000"] *)
Definition API_BASE_or_default (base : Env) : jsstring :=
  match base with
  | None => lit "http://localhost:8000"
  | Some b => if str_eqb b [] then lit "http://localhost:8000" else b
  end.

(** The URL of the stream: [`${API_BASE.replace(/\/$/, "")}/ask/stream`]
    in the first revision, [`${API_BASE}/ask/stream`] in the later one. *)
Definition stream_url (v : Variant) (base : Env) : jsstring :=
  match v with
  | BreakOnly => strip_slash (API_BASE_or_default base) ++ lit "/ask/stream"
  | CancelReader => getApiBase base ++ lit "/ask/stream"
  end.

End Api.

(** ** The facts: LeftPane.js and FactBox.js *)

Module Facts.

(** What [fetchJson] gives its caller: the parsed body, or [None] when it
    throws, because [fetch] rejects, the status is not ok or the body is
    not JSON. The callers catch without looking at the error. *)
Definition Fetched := option JSValue.

Definition FALLBACK_PUBLIC_URL : jsstring := lit "/facts_gpt5.json".

(** [`${API_BASE}/facts`] *)
Definition facts_url (base : Api.Env) : jsstring :=
  Api.getApiBase base ++ lit "/facts".

(** [Array.isArray(data) ? data : Array.isArray(data.facts) ? data.facts
    : []]; [None] when [data.facts] throws, [data] being [null]. *)
Definition facts_array (data : JSValue) : option (list JSValue) :=
  match data with
  | JArray items => Some items
  | JNull | JUndefined => None
  | _ =>
      match optional_get data (lit "facts") with
      | JArray items => Some items
      | _ => Some []
      end
  end.

Section Loading.
Context `{Platform}.

(** [arr.map(String)]; [None] when [String] throws on an element. *)
Fixpoint map_String (arr : list JSValue) : option (list jsstring) :=
  match arr with
  | [] => Some []
  | x :: arr' =>
      match ToString x with
      | None => None
      | Some s =>
          match map_String arr' with
          | None => None
          | Some l => Some (s :: l)
          end
      end
  end.

(** The [try] block of LeftPane.js for one source: the facts to set, or
    [None] when it throws. *)
Definition facts_of (r : Fetched) : option (list jsstring) :=
  match r with
  | None => None
  | Some data =>
      match facts_array data with
      | None => None
      | Some arr => map_String arr
      end
  end.

(** The [try] block of FactBox.js for one source: an empty array throws
    before it is mapped. *)
Definition facts_of_nonempty (r : Fetched) : option (list jsstring) :=
  match r with
  | None => None
  | Some data =>
      match facts_array data with
      | None => None
      | Some [] => None
      | Some arr => map_String arr
      end
  end.

End Loading.

(** The state of [LeftPane]; [fetched] is ghost: the URLs requested. *)
Record LeftPane := {
  facts : list jsstring;
  idx : Z;
  ready : bool;
  fetched : list jsstring
}.

Definition mounted : LeftPane :=
  {| facts := []; idx := 0; ready := false; fetched := [] |}.

(** The state of [FactBox]. *)
Record FactBox := {
  box_facts : list jsstring;
  box_loading : bool;
  box_msg : jsstring;
  box_fetched : list jsstring
}.

Definition box_mounted : FactBox :=
  {| box_facts := []; box_loading := true; box_msg := []; box_fetched := [] |}.

Section Components.
Context `{Platform}.

(** The first effect of [LeftPane]: [backend] and [fallback] are what
    [fetchJson] gives for the two URLs; the second is requested only in the
    [catch] clause. *)
Definition load (base : Api.Env) (backend fallback : Fetched) (st : LeftPane)
  : LeftPane :=
  match facts_of backend with
  | Some l =>
      {| facts := l; idx := 0; ready := true;
         fetched := fetched st ++ [facts_url base] |}
  | None =>
      match facts_of fallback with
      | Some l =>
          {| facts := l; idx := 0; ready := true;
             fetched := fetched st ++ [facts_url base; FALLBACK_PUBLIC_URL] |}
      | None =>
          {| facts := []; idx := 0; ready := true;
             fetched := fetched st ++ [facts_url base; FALLBACK_PUBLIC_URL] |}
      end
  end.

(** The effect of [FactBox]. *)
Definition box_load (base : Api.Env) (backend fallback : Fetched) (st : FactBox)
  : FactBox :=
  match facts_of_nonempty backend with
  | Some l =>
      {| box_facts := l; box_loading := false;
         box_msg := lit "Loaded " ++ of_int (Z.of_nat (length l))
                    ++ lit " facts from backend.";
         box_fetched := box_fetched st ++ [facts_url base] |}
  | None =>
      match facts_of_nonempty fallback with
      | Some l =>
          {| box_facts := l; box_loading := false;
             box_msg := lit "Loaded " ++ of_int (Z.of_nat (length l))
                        ++ lit " facts from /public/facts_gpt5.json";
             box_fetched := box_fetched st ++ [facts_url base; FALLBACK_PUBLIC_URL] |}
      | None =>
          {| box_facts := []; box_loading := false;
             box_msg := lit "Failed to load facts from backend and fallback.";
             box_fetched := box_fetched st ++ [facts_url base; FALLBACK_PUBLIC_URL] |}
      end
  end.

End Components.

(** The callback of the interval, [setIdx((i) => (i + 1) % facts.length)];
    the second effect sets no interval while there are no facts. *)
Definition tick (st : LeftPane) : LeftPane :=
  if (Z.of_nat (length (facts st)) =? 0) then st
  else {| facts := facts st;
          idx := Z.rem (idx st + 1) (Z.of_nat (length (facts st)));
          ready := ready st;
          fetched := fetched st |}.

(** [facts.length ? facts[idx] : ""]; [None] is [undefined]. *)
Definition current (st : LeftPane) : option jsstring :=
  if (Z.of_nat (length (facts st)) =? 0) then Some []
  else at_index (facts st) (idx st).

End Facts.

(** ** More vocabulary: the decoder and line feeds *)

(** A decoder in which the character in progress, once complete, cannot
    be a line feed. *)
Definition steady (d : TextDecoder.t) : Prop :=
  TextDecoder.bytes_needed d = 0 \/
  (TextDecoder.bytes_seen d < TextDecoder.bytes_needed d /\
   0 <= TextDecoder.code_point d /\
   0x80 <= TextDecoder.lower_boundary d /\
   TextDecoder.upper_boundary d <= 0xBF /\
   (TextDecoder.code_point d <> 0 \/
    (TextDecoder.bytes_seen d + 2 <= TextDecoder.bytes_needed d /\
     0x80 < TextDecoder.lower_boundary d))).

(** The number of line feeds among code points. *)
Definition feeds (cps : list Z) : nat := length (filter (fun c => c = 10) cps).

(** How the end of the bytes read so far and the end of the text decoded
    from them go together: [pb] says that the last byte is a line feed,
    [pt] that the last code unit is one. Before the first code point
    there is no text; and the last byte is a line feed exactly when the
    last code unit is one and no character is in progress. *)
Definition paired (d : TextDecoder.t) (pb pt : bool) : Prop :=
  (TextDecoder.bom_seen d = false -> pt = false) /\
  (pb = true <-> pt = true /\ TextDecoder.bytes_needed d = 0).

(** ** The chat without streaming

    The [ChatBox] that posts the question to [/ask] and shows the answer
    when the whole response is there. Its [sendMessage] does not look at
    [loading], so several calls can be in flight; [calls] has the place
    where each call of [sendMessage] is suspended. *)

Module PlainChat.

(** A message; the text of an answer is whatever value the response
    holds. *)
Record Bubble := { bubble_role : Role; bubble_text : JSValue }.

Inductive Stage :=
| AwaitFetch     (* at [await fetch(...)] *)
| AwaitJson      (* at [await res.json()] *)
| Settled.

Record State := {
  bubbles : list Bubble;
  input : jsstring;
  loading : bool;
  calls : list Stage
}.

Inductive Event :=
| Typed (value : jsstring)                  (* [setInput(e.target.value)] *)
| Send                                      (* [sendMessage()] *)
| FetchResolved (call : nat)                (* [fetch] resolves *)
| FetchRejected (call : nat)                (* [fetch] rejects *)
| JsonResolved (call : nat) (data : JSValue)  (* [res.json()] resolves *)
| JsonRejected (call : nat).                (* [res.json()] rejects *)

Definition mounted : State :=
  {| bubbles := [{| bubble_role := ai; bubble_text := JString greeting |}];
     input := [];
     loading := false;
     calls := [] |}.

Definition unreachable : jsstring := lit "Error: Unable to reach the backend.".
Definition sorry : jsstring := lit "Sorry, something went wrong.".

Section Component.
Context `{Platform}.

(** [data.answer || data.error || "Sorry, something went wrong."];
    [None] when [data.answer] throws, [data] being [null]. *)
Definition reply (data : JSValue) : option JSValue :=
  match data with
  | JNull | JUndefined => None
  | _ =>
      if ToBoolean (optional_get data (lit "answer")) then
        Some (optional_get data (lit "answer"))
      else if ToBoolean (optional_get data (lit "error")) then
        Some (optional_get data (lit "error"))
      else Some (JString sorry)
  end.

(** A call leaves [sendMessage]: the message it appends, then
    [finally { setLoading(false); }]. *)
Definition settle (call : nat) (text : JSValue) (st : State) : State :=
  {| bubbles := bubbles st ++ [{| bubble_role := ai; bubble_text := text |}];
     input := input st;
     loading := false;
     calls := <[call := Settled]> (calls st) |}.

(** [sendMessage], up to [await fetch(...)]. *)
Definition sendMessage (st : State) : State :=
  if str_eqb (trim (input st)) [] then st
  else
    let question := trim (input st) in
    {| bubbles := bubbles st ++
                  [{| bubble_role := user; bubble_text := JString question |}];
       input := [];
       loading := true;
       calls := calls st ++ [AwaitFetch] |}.

(** One event; [None] when the updater of the answer throws and the
    render fails. An event for a call that does not wait for it changes
    nothing. *)
Definition step (st : State) (ev : Event) : option State :=
  match ev with
  | Typed value =>
      Some {| bubbles := bubbles st; input := value;
              loading := loading st; calls := calls st |}
  | Send => Some (sendMessage st)
  | FetchResolved call =>
      match calls st !! call with
      | Some AwaitFetch =>
          Some {| bubbles := bubbles st; input := input st;
                  loading := loading st;
                  calls := <[call := AwaitJson]> (calls st) |}
      | _ => Some st
      end
  | FetchRejected call =>
      match calls st !! call with
      | Some AwaitFetch => Some (settle call (JString unreachable) st)
      | _ => Some st
      end
  | JsonResolved call data =>
      match calls st !! call with
      | Some AwaitJson =>
          match reply data with
          | Some text => Some (settle call text st)
          | None => None
          end
      | _ => Some st
      end
  | JsonRejected call =>
      match calls st !! call with
      | Some AwaitJson => Some (settle call (JString unreachable) st)
      | _ => Some st
      end
  end.

Fixpoint run (st : State) (evs : list Event) : option State :=
  match evs with
  | [] => Some st
  | ev :: evs' =>
      match step st ev with
      | Some st' => run st' evs'
      | None => None
      end
  end.

End Component.

Definition is_user (b : Bubble) : bool :=
  match bubble_role b with user => true | ai => false end.

Definition is_settled (s : Stage) : bool :=
  match s with Settled => true | _ => false end.

(** The number of elements of a list that pass a test. *)
Fixpoint count {A} (f : A -> bool) (l : list A) : nat :=
  match l with
  | [] => 0
  | x :: l' => ((if f x then 1 else 0) + count f l')%nat
  end.

End PlainChat.

(** The questions, the answers and the calls of the chat without
    streaming are in step. *)
Definition balanced (st : PlainChat.State) : Prop :=
  PlainChat.count PlainChat.is_user (PlainChat.bubbles st) =
    length (PlainChat.calls st) /\
  PlainChat.count (fun b => negb (PlainChat.is_user b)) (PlainChat.bubbles st) =
    S (PlainChat.count PlainChat.is_settled (PlainChat.calls st)).

(** ** More examples *)

Module MoreExamples.
Import Reference Examples.

(** A delta cut in two chunks, and the same bytes in one. *)
Definition cut_delta : list (list Byte.byte) :=
  [wire "data: {'delta':'Hel"; wire "lo'}||"].

Definition whole_delta : list (list Byte.byte) :=
  [wire "data: {'delta':'Hello'}||"].

(** A frame after the [end] frame. *)
Definition up_to_end : list Byte.byte := wire "data: {'delta':'Hi'}||data: end||".
Definition after_end : list Byte.byte := wire "data: {'delta':' there'}||".

(** A frame whose blank line never comes. *)
Definition unterminated : list (list Byte.byte) :=
  [wire "data: {'delta':'H"; wire "i'}|"].

(** Payloads, with and without blanks around them. *)
Definition payloads : list jsstring :=
  [text_of "{'delta':'Hel'}"; text_of "  {'delta':'lo'} "; lit "end";
   text_of "{'delta':'late'}"].

(** A stream whose lines end with a carriage return and a line feed. *)
Definition carriage_returns : list (list Byte.byte) :=
  [wire "data: {'delta':'Hi'}" ++ [x0d; x0a; x0d; x0a];
   wire "data: end" ++ [x0d; x0a; x0d; x0a]].

(** A body of the backend with two facts, one of them a number. *)
Definition two_facts : JSValue :=
  JObject [(lit "facts", JArray [JString (lit "a fact"); JNumber (lit "2")])].

End MoreExamples.

(** * Properties *)

(** ** Strings and the decoder *)

Lemma startsWith_length s p : startsWith s p = true -> (length p <= length s)%nat.
Proof.
  revert s; induction p as [|c p IH]; intros [|d s]; simpl; try lia; try discriminate.
  intros [_ Hs]%andb_prop. apply IH in Hs. lia.
Qed.

Lemma startsWith_app s p t :
  (length p <= length s)%nat -> startsWith (s ++ t) p = startsWith s p.
Proof.
  revert s; induction p as [|c p IH]; intros [|d s]; simpl; try lia; auto.
  - intros _. destruct t; reflexivity.
  - intros Hl. rewrite IH by lia. reflexivity.
Qed.

Lemma indexOf_from_nil i p :
  indexOf_from i [] p = if startsWith [] p then i else -1.
Proof. reflexivity. Qed.

Lemma indexOf_from_cons i d s p :
  indexOf_from i (d :: s) p =
  if startsWith (d :: s) p then i else indexOf_from (i + 1) s p.
Proof. reflexivity. Qed.

Lemma indexOf_from_found i s p :
  indexOf_from i s p <> -1 -> 0 <= i ->
  i <= indexOf_from i s p /\
  indexOf_from i s p - i + Z.of_nat (length p) <= Z.of_nat (length s).
Proof.
  revert i; induction s as [|d s IH]; intros i.
  - rewrite indexOf_from_nil. destruct (startsWith [] p) eqn:E; [|done].
    apply startsWith_length in E. intros _ Hi. lia.
  - rewrite indexOf_from_cons. destruct (startsWith (d :: s) p) eqn:E.
    + apply startsWith_length in E. intros _ Hi. lia.
    + intros Hf Hi. destruct (IH (i + 1) Hf ltac:(lia)) as [H1 H2].
      simpl length. lia.
Qed.

Lemma indexOf_from_app i s p t :
  indexOf_from i s p <> -1 -> 0 <= i ->
  indexOf_from i (s ++ t) p = indexOf_from i s p.
Proof.
  revert i; induction s as [|d s IH]; intros i.
  - rewrite indexOf_from_nil. destruct (startsWith [] p) eqn:E; [|done].
    intros _ _. pose proof (startsWith_length _ _ E) as Hl.
    destruct p; [|simpl in Hl; lia].
    destruct t; reflexivity.
  - change ((d :: s) ++ t) with (d :: (s ++ t)).
    rewrite !indexOf_from_cons.
    change (d :: (s ++ t)) with ((d :: s) ++ t).
    destruct (startsWith (d :: s) p) eqn:E.
    + intros _ _. pose proof (startsWith_length _ _ E) as Hl.
      rewrite startsWith_app, E by exact Hl. reflexivity.
    + intros Hf Hi.
      destruct (indexOf_from_found (i + 1) s p Hf ltac:(lia)) as [H1 H2].
      rewrite startsWith_app, E by (simpl length; lia).
      apply IH; [exact Hf | lia].
Qed.

Lemma indexOf_app s p t :
  indexOf s p <> -1 -> indexOf (s ++ t) p = indexOf s p.
Proof. intros Hf. apply indexOf_from_app; [exact Hf | lia]. Qed.

Lemma indexOf_found s p :
  indexOf s p <> -1 ->
  0 <= indexOf s p /\ indexOf s p + Z.of_nat (length p) <= Z.of_nat (length s).
Proof.
  intros Hf. destruct (indexOf_from_found 0 s p Hf ltac:(lia)) as [H1 H2].
  unfold indexOf. lia.
Qed.

Lemma relative_index_nonneg len k :
  0 <= k -> relative_index len k = Z.min k len.
Proof. intros Hk. unfold relative_index. destruct (Z.ltb_spec k 0); lia. Qed.

Lemma slice_prefix s k :
  0 <= k <= Z.of_nat (length s) -> slice s 0 k = take (Z.to_nat k) s.
Proof.
  intros Hk. unfold slice. rewrite !relative_index_nonneg by lia.
  rewrite Z.min_l, Z.min_l by lia. simpl. f_equal. lia.
Qed.

Lemma slice_from_drop s k :
  0 <= k <= Z.of_nat (length s) -> slice_from s k = drop (Z.to_nat k) s.
Proof.
  intros Hk. unfold slice_from, slice. rewrite !relative_index_nonneg by lia.
  rewrite Z.min_l, Z.min_l by lia.
  apply take_ge. rewrite length_drop. lia.
Qed.

Lemma slice_prefix_app s t k :
  0 <= k <= Z.of_nat (length s) -> slice (s ++ t) 0 k = slice s 0 k.
Proof.
  intros Hk. rewrite !slice_prefix by (rewrite ?length_app; lia).
  apply take_app_le. lia.
Qed.

Lemma slice_from_app s t k :
  0 <= k <= Z.of_nat (length s) -> slice_from (s ++ t) k = slice_from s k ++ t.
Proof.
  intros Hk. rewrite !slice_from_drop by (rewrite ?length_app; lia).
  apply drop_app_le. lia.
Qed.

Lemma slice_from_length s k :
  0 <= k <= Z.of_nat (length s) ->
  Z.of_nat (length (slice_from s k)) = Z.of_nat (length s) - k.
Proof.
  intros Hk. rewrite slice_from_drop by lia. rewrite length_drop. lia.
Qed.

Lemma decode_app d a b :
  TextDecoder.decode d (a ++ b) =
  let '(d1, s1) := TextDecoder.decode d a in
  let '(d2, s2) := TextDecoder.decode d1 b in
  (d2, s1 ++ s2).
Proof.
  revert d; induction a as [|x a IH]; intros d; simpl.
  - destruct (TextDecoder.decode d b); reflexivity.
  - destruct (TextDecoder.handler d (TextDecoder.byte_value x)) as [d1 cps].
    destruct (TextDecoder.emit_all d1 cps) as [d2 s1].
    rewrite IH.
    destruct (TextDecoder.decode d2 a) as [d3 s2].
    destruct (TextDecoder.decode d3 b) as [d4 s3].
    rewrite app_assoc. reflexivity.
Qed.

(** ** The frame loop *)

Section FrameLoop.
Context `{Platform}.

Lemma indexOf_nil_delimiter : indexOf [] delimiter = -1.
Proof. reflexivity. Qed.

Lemma frame_loop_S fuel buffer c :
  frame_loop (S fuel) buffer c =
  let idx := indexOf buffer delimiter in
  if idx =? -1 then
    Ok {| exit_buffer := buffer; exit_chat := c; saw_end := false |}
  else
    r <-- frame_body (trim (slice buffer 0 idx)) c ;;
    match r with
    | Continue c' => frame_loop fuel (slice_from buffer (idx + 2)) c'
    | Break => Ok {| exit_buffer := slice_from buffer (idx + 2);
                     exit_chat := c; saw_end := true |}
    end.
Proof. reflexivity. Qed.

(** A frame and its delimiter leave the buffer in every iteration. *)
Lemma rest_shorter buffer :
  indexOf buffer delimiter <> -1 ->
  (length (slice_from buffer (indexOf buffer delimiter + 2)) + 2
   <= length buffer)%nat.
Proof.
  intros Hf. destruct (indexOf_found _ _ Hf) as [H0 H1].
  change (Z.of_nat (length delimiter)) with 2 in H1.
  pose proof (slice_from_length buffer (indexOf buffer delimiter + 2)
                ltac:(lia)).
  lia.
Qed.

(** The loop has ended before its fuel runs out. *)
Lemma frame_loop_fuel n m buffer c :
  (length buffer <= n)%nat -> (length buffer <= m)%nat ->
  frame_loop n buffer c = frame_loop m buffer c.
Proof.
  revert m buffer c. induction n as [|n IH]; intros m buffer c Hn Hm.
  - destruct buffer; [|simpl in Hn; lia].
    destruct m; reflexivity.
  - destruct m as [|m].
    + destruct buffer; [|simpl in Hm; lia]. reflexivity.
    + rewrite !frame_loop_S. cbv zeta.
      destruct (Z.eqb_spec (indexOf buffer delimiter) (-1)) as [|Hf];
        [reflexivity|].
      pose proof (rest_shorter buffer Hf).
      destruct (frame_body _ c) as [[c'|]|f]; simpl; try reflexivity.
      apply IH; lia.
Qed.

Lemma frames_unfold buffer c :
  frames buffer c =
  let idx := indexOf buffer delimiter in
  if idx =? -1 then
    Ok {| exit_buffer := buffer; exit_chat := c; saw_end := false |}
  else
    r <-- frame_body (trim (slice buffer 0 idx)) c ;;
    match r with
    | Continue c' => frames (slice_from buffer (idx + 2)) c'
    | Break => Ok {| exit_buffer := slice_from buffer (idx + 2);
                     exit_chat := c; saw_end := true |}
    end.
Proof.
  unfold frames. destruct buffer as [|d buffer]; [reflexivity|].
  change (length (d :: buffer)) with (S (length buffer)).
  rewrite frame_loop_S. cbv zeta.
  destruct (Z.eqb_spec (indexOf (d :: buffer) delimiter) (-1)) as [|Hf];
    [reflexivity|].
  pose proof (rest_shorter (d :: buffer) Hf) as Hs. simpl length in Hs.
  destruct (frame_body _ c) as [[c'|]|f]; simpl; try reflexivity.
  apply frame_loop_fuel; lia.
Qed.

(** Induction along the iterations of the loop. *)
Lemma frames_ind (P : jsstring -> Chat -> Outcome LoopExit -> Prop) :
  (forall b c, indexOf b delimiter = -1 ->
     P b c (Ok {| exit_buffer := b; exit_chat := c; saw_end := false |})) ->
  (forall b c f, indexOf b delimiter <> -1 ->
     frame_body (trim (slice b 0 (indexOf b delimiter))) c = Crash f ->
     P b c (Crash f)) ->
  (forall b c, indexOf b delimiter <> -1 ->
     frame_body (trim (slice b 0 (indexOf b delimiter))) c = Ok Break ->
     P b c (Ok {| exit_buffer := slice_from b (indexOf b delimiter + 2);
                  exit_chat := c; saw_end := true |})) ->
  (forall b c c', indexOf b delimiter <> -1 ->
     frame_body (trim (slice b 0 (indexOf b delimiter))) c = Ok (Continue c') ->
     P (slice_from b (indexOf b delimiter + 2)) c'
       (frames (slice_from b (indexOf b delimiter + 2)) c') ->
     P b c (frames (slice_from b (indexOf b delimiter + 2)) c')) ->
  forall b c, P b c (frames b c).
Proof.
  intros Hnone Hcrash Hbreak Hcont b.
  remember (length b) as n eqn:Hn. revert b Hn.
  induction n as [n IH] using lt_wf_ind. intros b Hn c.
  rewrite frames_unfold. cbv zeta.
  destruct (Z.eqb_spec (indexOf b delimiter) (-1)) as [He|Hf].
  - apply Hnone, He.
  - pose proof (rest_shorter b Hf) as Hs.
    destruct (frame_body _ c) as [[c'|]|f] eqn:Hb; simpl.
    + apply Hcont; [exact Hf | exact Hb |].
      eapply IH; [|reflexivity]. lia.
    + apply Hbreak; assumption.
    + apply Hcrash; assumption.
Qed.

(** When the loop ends without [end], no complete frame is left in the
    buffer. *)
Lemma frames_drained buffer c :
  match frames buffer c with
  | Ok e => saw_end e = false -> indexOf (exit_buffer e) delimiter = -1
  | Crash _ => True
  end.
Proof.
  apply frames_ind; simpl; auto; discriminate.
Qed.

Lemma frames_without_frame buffer c :
  indexOf buffer delimiter = -1 ->
  frames buffer c =
  Ok {| exit_buffer := buffer; exit_chat := c; saw_end := false |}.
Proof.
  intros He. rewrite frames_unfold. cbv zeta. rewrite He. reflexivity.
Qed.

(** Text that arrives later does not change the frames already in the
    buffer, nor what the loop does with them. *)
Lemma frames_app buffer c t :
  match frames buffer c with
  | Ok e =>
      if saw_end e then
        frames (buffer ++ t) c =
        Ok {| exit_buffer := exit_buffer e ++ t;
              exit_chat := exit_chat e; saw_end := true |}
      else frames (buffer ++ t) c = frames (exit_buffer e ++ t) (exit_chat e)
  | Crash f => frames (buffer ++ t) c = Crash f
  end.
Proof.
  revert buffer c.
  assert (Hstep : forall b c, indexOf b delimiter <> -1 ->
    frames (b ++ t) c =
    r <-- frame_body (trim (slice b 0 (indexOf b delimiter))) c ;;
    match r with
    | Continue c' => frames (slice_from b (indexOf b delimiter + 2) ++ t) c'
    | Break => Ok {| exit_buffer := slice_from b (indexOf b delimiter + 2) ++ t;
                     exit_chat := c; saw_end := true |}
    end).
  { intros b c Hf. destruct (indexOf_found _ _ Hf) as [H0 H1].
    change (Z.of_nat (length delimiter)) with 2 in H1.
    rewrite frames_unfold. cbv zeta.
    rewrite indexOf_app by exact Hf.
    destruct (Z.eqb_spec (indexOf b delimiter) (-1)) as [|_]; [done|].
    rewrite slice_prefix_app, slice_from_app by lia. reflexivity. }
  apply (frames_ind (fun b c r =>
    match r with
    | Ok e =>
        if saw_end e then
          frames (b ++ t) c =
          Ok {| exit_buffer := exit_buffer e ++ t;
                exit_chat := exit_chat e; saw_end := true |}
        else frames (b ++ t) c = frames (exit_buffer e ++ t) (exit_chat e)
    | Crash f => frames (b ++ t) c = Crash f
    end)).
  - intros b c _. reflexivity.
  - intros b c f Hf Hb. rewrite Hstep, Hb by exact Hf. reflexivity.
  - intros b c Hf Hb. simpl. rewrite Hstep, Hb by exact Hf. reflexivity.
  - intros b c c' Hf Hb IH. rewrite Hstep, Hb by exact Hf. simpl.
    exact IH.
Qed.

End FrameLoop.

(** ** Chunks *)

Section Chunks.
Context `{Platform}.

Lemma chat_of_suspend p c st : chat_of (suspend p c st) = c.
Proof. destruct c; reflexivity. Qed.

Lemma run_app v st evs1 evs2 :
  run v st (evs1 ++ evs2) = st' <-- run v st evs1 ;; run v st' evs2.
Proof.
  revert st; induction evs1 as [|ev evs1 IH]; intros st; simpl.
  - reflexivity.
  - destruct (step v st ev) as [st'|f]; simpl; [apply IH | reflexivity].
Qed.

(** Nothing is read from the network when no call is suspended. *)
Lemma idle_ignores_network v st evs :
  phase st = Idle -> Forall (fun ev => is_network ev = true) evs ->
  run v st evs = Ok st.
Proof.
  intros Hi Hall. induction Hall as [|ev evs Hev _ IH]; [reflexivity|].
  simpl. destruct ev; try discriminate; simpl; rewrite Hi; simpl; exact IH.
Qed.

Lemma chunks_are_network (cs : list (list Byte.byte)) :
  Forall (fun ev => is_network ev = true) (map Chunk cs).
Proof. induction cs; constructor; auto. Qed.

Lemma step_chunk v st decoder buffer value :
  phase st = AwaitRead decoder buffer ->
  step v st (Chunk value) = on_chunk v decoder buffer value st.
Proof. intros Hp. simpl. rewrite Hp. reflexivity. Qed.

(** An [end] frame that the loop reaches in a chunk is reached as well
    when more bytes come with the chunk. *)
Lemma sees_end_app st a b :
  sees_end st a = true -> sees_end st (a ++ b) = true.
Proof.
  unfold sees_end. destruct (phase st) as [| |d buf]; try discriminate.
  rewrite decode_app.
  destruct (TextDecoder.decode d a) as [d1 s1].
  destruct (TextDecoder.decode d1 b) as [d2 s2].
  pose proof (frames_app (buf ++ s1) (chat_of st) s2) as Happ.
  destruct (frames (buf ++ s1) (chat_of st)) as [e|f]; [|discriminate].
  intros He. rewrite He in Happ. rewrite app_assoc, Happ. reflexivity.
Qed.

(** Two chunks do what their concatenation does, unless the first
    revision has seen [end] in the first of them. *)
Lemma chunk_app v st a b :
  v = CancelReader \/ sees_end st a = false ->
  step v st (Chunk (a ++ b)) =
  st' <-- step v st (Chunk a) ;; step v st' (Chunk b).
Proof.
  intros Hv. destruct (phase st) as [| |d buf] eqn:Hp.
  - simpl. rewrite Hp. simpl. rewrite Hp. reflexivity.
  - simpl. rewrite Hp. simpl. rewrite Hp. reflexivity.
  - rewrite !(step_chunk _ _ _ _ _ Hp). unfold on_chunk.
    unfold sees_end in Hv. rewrite Hp in Hv.
    rewrite decode_app.
    destruct (TextDecoder.decode d a) as [d1 s1].
    destruct (TextDecoder.decode d1 b) as [d2 s2] eqn:Hd.
    pose proof (frames_app (buf ++ s1) (chat_of st) s2) as Happ.
    rewrite app_assoc.
    destruct (frames (buf ++ s1) (chat_of st)) as [e|f]; simpl.
    + destruct (saw_end e) eqn:He.
      * destruct Hv as [->|Hv]; [|discriminate].
        rewrite Happ. simpl. reflexivity.
      * rewrite Happ.
        destruct v; simpl; unfold on_chunk;
          rewrite Hd, chat_of_suspend;
          destruct (frames (exit_buffer e ++ s2) (exit_chat e)) as [e2|f2];
          reflexivity.
    + rewrite Happ. reflexivity.
Qed.

Lemma step_empty_chunk v st :
  drained st -> step v st (Chunk []) = Ok st.
Proof.
  unfold drained. intros Hd. destruct st as [ms i l a p r ap].
  simpl in *. destruct p as [| |d buf]; try reflexivity.
  unfold on_chunk. simpl. rewrite app_nil_r.
  rewrite frames_without_frame by exact Hd. simpl.
  destruct v; reflexivity.
Qed.

Lemma step_chunk_drained v st value st' :
  v = CancelReader \/ sees_end st value = false ->
  step v st (Chunk value) = Ok st' -> drained st'.
Proof.
  intros Hv. destruct (phase st) as [| |d buf] eqn:Hp.
  - simpl. rewrite Hp. intros [= <-]. unfold drained. rewrite Hp. exact I.
  - simpl. rewrite Hp. intros [= <-]. unfold drained. rewrite Hp. exact I.
  - rewrite (step_chunk _ _ _ _ _ Hp). unfold on_chunk.
    unfold sees_end in Hv. rewrite Hp in Hv.
    destruct (TextDecoder.decode d value) as [d1 s1].
    pose proof (frames_drained (buf ++ s1) (chat_of st)) as Hdr.
    destruct (frames (buf ++ s1) (chat_of st)) as [e|f]; simpl; [|discriminate].
    destruct (saw_end e) eqn:He.
    + destruct Hv as [->|Hv]; [|discriminate].
      intros [= <-]. exact I.
    + destruct v; intros [= <-]; unfold drained; simpl; auto.
Qed.

Lemma sees_end_rest v st a b st' :
  sees_end st (a ++ b) = false ->
  step v st (Chunk a) = Ok st' -> sees_end st' b = false.
Proof.
  intros Hab Hst.
  destruct (sees_end st a) eqn:Ha.
  { apply (sees_end_app st a b) in Ha. congruence. }
  destruct (phase st) as [| |d buf] eqn:Hp.
  - simpl in Hst. rewrite Hp in Hst. injection Hst as <-.
    unfold sees_end. rewrite Hp. reflexivity.
  - simpl in Hst. rewrite Hp in Hst. injection Hst as <-.
    unfold sees_end. rewrite Hp. reflexivity.
  - rewrite (step_chunk _ _ _ _ _ Hp) in Hst.
    unfold sees_end in Hab, Ha. rewrite Hp in Hab, Ha.
    unfold on_chunk in Hst.
    rewrite decode_app in Hab.
    destruct (TextDecoder.decode d a) as [d1 s1].
    destruct (TextDecoder.decode d1 b) as [d2 s2] eqn:Hd.
    pose proof (frames_app (buf ++ s1) (chat_of st) s2) as Hfa.
    rewrite app_assoc in Hab.
    destruct (frames (buf ++ s1) (chat_of st)) as [e|f]; [|discriminate].
    rewrite Ha in Hfa. rewrite Hfa in Hab.
    simpl in Hst. rewrite Ha in Hst.
    assert (st' = suspend (AwaitRead d1 (exit_buffer e)) (exit_chat e) st)
      as -> by (destruct v; congruence).
    unfold sees_end. simpl phase. cbv iota beta.
    rewrite Hd, chat_of_suspend. exact Hab.
Qed.

(** A run of chunks does what one chunk with all their bytes does. *)
Lemma chunks_concat v cs : forall st,
  drained st ->
  v = CancelReader \/ sees_end st (concat cs) = false ->
  run v st (map Chunk cs) = step v st (Chunk (concat cs)).
Proof.
  induction cs as [|a cs IH]; intros st Hdr Hv.
  - simpl. symmetry. apply step_empty_chunk, Hdr.
  - cbn [concat] in Hv. cbn [run map concat].
    assert (Ha : v = CancelReader \/ sees_end st a = false).
    { destruct Hv as [Hv|Hv]; [left; exact Hv | right].
      destruct (sees_end st a) eqn:E; [|reflexivity].
      apply (sees_end_app st a (concat cs)) in E. congruence. }
    rewrite (chunk_app v st a (concat cs) Ha).
    destruct (step v st (Chunk a)) as [st'|f] eqn:Hst; simpl; [|reflexivity].
    apply IH.
    + eapply step_chunk_drained; eassumption.
    + destruct Hv as [Hv|Hv]; [left; exact Hv | right].
      eapply sees_end_rest; eassumption.
Qed.

(** The later revision assembles the same conversation however the
    bytes of the stream are cut into chunks, and so does the first one on
    a stream in which the loop reaches no [end] frame. *)
Theorem chunking_irrelevant v st cs1 cs2 :
  drained st ->
  concat cs1 = concat cs2 ->
  v = CancelReader \/ sees_end st (concat cs1) = false ->
  run v st (map Chunk cs1 ++ [Done]) = run v st (map Chunk cs2 ++ [Done]).
Proof.
  intros Hdr Heq Hv. rewrite !run_app.
  rewrite (chunks_concat v cs1 st Hdr Hv).
  rewrite Heq in Hv. rewrite (chunks_concat v cs2 st Hdr Hv).
  rewrite Heq. reflexivity.
Qed.

(** The two revisions differ only once the loop has reached [end]. *)
Lemma step_chunk_variants st value :
  sees_end st value = false ->
  step BreakOnly st (Chunk value) = step CancelReader st (Chunk value).
Proof.
  intros Hs. destruct (phase st) as [| |d buf] eqn:Hp.
  - simpl. rewrite Hp. reflexivity.
  - simpl. rewrite Hp. reflexivity.
  - rewrite !(step_chunk _ _ _ _ _ Hp). unfold on_chunk.
    unfold sees_end in Hs. rewrite Hp in Hs.
    destruct (TextDecoder.decode d value) as [d1 s1].
    destruct (frames (buf ++ s1) (chat_of st)) as [e|f]; simpl; [|reflexivity].
    rewrite Hs. reflexivity.
Qed.

Theorem variants_agree_without_end st cs :
  drained st ->
  sees_end st (concat cs) = false ->
  run BreakOnly st (map Chunk cs ++ [Done]) =
  run CancelReader st (map Chunk cs ++ [Done]).
Proof.
  intros Hdr Hs. rewrite !run_app.
  rewrite !chunks_concat by auto.
  rewrite step_chunk_variants by exact Hs.
  destruct (step CancelReader st (Chunk (concat cs))); reflexivity.
Qed.

(** In the later revision the chunk in which the loop reaches [end] is
    the last one consumed: the call ends, and whatever the network
    delivers afterwards changes nothing. *)
Theorem cancel_reader_end_is_final st value :
  sees_end st value = true ->
  exists st',
    step CancelReader st (Chunk value) = Ok st' /\
    phase st' = Idle /\ loading st' = false /\
    forall evs, Forall (fun ev => is_network ev = true) evs ->
                run CancelReader st' evs = Ok st'.
Proof.
  intros Hs. unfold sees_end in Hs.
  destruct (phase st) as [| |d buf] eqn:Hp; try discriminate.
  rewrite (step_chunk _ _ _ _ _ Hp). unfold on_chunk.
  destruct (TextDecoder.decode d value) as [d1 s1].
  destruct (frames (buf ++ s1) (chat_of st)) as [e|f]; [|discriminate].
  simpl. rewrite Hs. eexists. split; [reflexivity|].
  split; [reflexivity|]. split; [reflexivity|].
  intros evs Hall. apply idle_ignores_network; [reflexivity | exact Hall].
Qed.

End Chunks.

(** ** The updates of the conversation *)

Lemma with_text_app m s t : with_text (with_text m s) t = with_text m (s ++ t).
Proof. unfold with_text; simpl. rewrite app_assoc. reflexivity. Qed.

Lemma at_index_last {A} (init : list A) (m : A) :
  at_index (init ++ [m]) (Z.of_nat (length (init ++ [m])) - 1) = Some m.
Proof.
  unfold at_index. rewrite length_app. simpl length.
  destruct (Z.ltb_spec (Z.of_nat (length init + 1) - 1) 0); [lia|].
  apply list_lookup_middle. lia.
Qed.

Lemma at_index_nil {A} : at_index (@nil A) (Z.of_nat (length (@nil A)) - 1) = None.
Proof. reflexivity. Qed.

(** On a conversation that is not empty the update of the last message
    rewrites that message and no other. *)
Lemma append_to_last_snoc init m s :
  append_to_last (Some s) (init ++ [m]) = Ok (init ++ [with_text m s]).
Proof.
  unfold append_to_last. cbv zeta. rewrite at_index_last.
  rewrite length_app. simpl length.
  replace (Z.to_nat (Z.of_nat (length init + 1) - 1))
    with (length init + 0)%nat by lia.
  rewrite insert_app_r. reflexivity.
Qed.

Lemma append_to_last_fault s prev f :
  append_to_last s prev = Crash f -> prev <> [] -> f = NotPrimitive.
Proof.
  intros Hc Hne. destruct (exists_last Hne) as (init & m & ->).
  unfold append_to_last in Hc. cbv zeta in Hc. rewrite at_index_last in Hc.
  destruct s; congruence.
Qed.

Section Frames.
Context `{Platform}.

(** What one frame can do to a conversation that is not empty. *)
Lemma on_data_cases data c init m :
  chat_messages c = init ++ [m] ->
  match on_data data c with
  | Ok Break => True
  | Ok (Continue c') =>
      c' = c \/
      (exists s, c' = {| chat_messages := init ++ [with_text m s];
                         chat_applied := chat_applied c ++ [DeltaApplied s] |}) \/
      (exists s, c' = {| chat_messages :=
                           (init ++ [m]) ++ [{| role := ai; text := lit "Error: " ++ s |}];
                         chat_applied := chat_applied c ++ [ErrorShown s] |})
  | Crash f => f = NotPrimitive
  end.
Proof.
  intros Hm. unfold on_data.
  destruct (str_eqb data (lit "end")); [exact I|].
  destruct (JSON_parse data) as [parsed|].
  - destruct (ToBoolean (optional_get parsed (lit "delta"))).
    + unfold chat_delta. rewrite Hm.
      destruct (ToString (optional_get parsed (lit "delta"))) as [s|].
      * rewrite append_to_last_snoc. simpl. right; left. eexists; reflexivity.
      * unfold append_to_last. cbv zeta. rewrite at_index_last. reflexivity.
    + destruct (ToBoolean (optional_get parsed (lit "error"))).
      * unfold chat_error. rewrite Hm.
        destruct (ToString (optional_get parsed (lit "error"))) as [s|]; simpl.
        -- right; right. eexists; reflexivity.
        -- reflexivity.
      * left; reflexivity.
  - unfold chat_delta. rewrite Hm, append_to_last_snoc. simpl.
    right; left. eexists; reflexivity.
Qed.

Lemma frame_body_cases raw c init m :
  chat_messages c = init ++ [m] ->
  match frame_body raw c with
  | Ok Break => True
  | Ok (Continue c') =>
      c' = c \/
      (exists s, c' = {| chat_messages := init ++ [with_text m s];
                         chat_applied := chat_applied c ++ [DeltaApplied s] |}) \/
      (exists s, c' = {| chat_messages :=
                           (init ++ [m]) ++ [{| role := ai; text := lit "Error: " ++ s |}];
                         chat_applied := chat_applied c ++ [ErrorShown s] |})
  | Crash f => f = NotPrimitive
  end.
Proof.
  intros Hm. unfold frame_body.
  destruct (str_eqb raw []); [left; reflexivity|].
  destruct (startsWith raw (lit "event:")); [left; reflexivity|].
  destruct (startsWith raw (lit "data:")); [|left; reflexivity].
  apply on_data_cases, Hm.
Qed.

(** The history of a run of the loop: what it applied, and where the
    deltas went as long as no error message was appended. *)
Lemma frames_history buffer c :
  forall init m, chat_messages c = init ++ [m] ->
  match frames buffer c with
  | Ok e =>
      exists hist,
        chat_applied (exit_chat e) = chat_applied c ++ hist /\
        chat_messages (exit_chat e) <> [] /\
        (forallb is_delta hist = true ->
         chat_messages (exit_chat e) = init ++ [with_text m (delta_text hist)])
  | Crash f => f = NotPrimitive
  end.
Proof.
  apply (frames_ind (fun b c r =>
    forall init m, chat_messages c = init ++ [m] ->
    match r with
    | Ok e =>
        exists hist,
          chat_applied (exit_chat e) = chat_applied c ++ hist /\
          chat_messages (exit_chat e) <> [] /\
          (forallb is_delta hist = true ->
           chat_messages (exit_chat e) = init ++ [with_text m (delta_text hist)])
    | Crash f => f = NotPrimitive
    end)).
  - intros b c0 _ init m Hm. exists []. simpl. rewrite app_nil_r, Hm.
    split; [reflexivity|]. split; [intros E; destruct init; discriminate|].
    intros _. unfold with_text, delta_text. simpl. rewrite app_nil_r.
    destruct m; reflexivity.
  - intros b c0 f _ Hb init m Hm.
    pose proof (frame_body_cases (trim (slice b 0 (indexOf b delimiter))) c0 init m Hm) as Hc.
    rewrite Hb in Hc. exact Hc.
  - intros b c0 _ _ init m Hm. exists []. simpl. rewrite app_nil_r, Hm.
    split; [reflexivity|]. split; [intros E; destruct init; discriminate|].
    intros _. unfold with_text, delta_text. simpl. rewrite app_nil_r.
    destruct m; reflexivity.
  - intros b c0 c' _ Hb IH init m Hm.
    pose proof (frame_body_cases (trim (slice b 0 (indexOf b delimiter))) c0 init m Hm) as Hc.
    rewrite Hb in Hc. destruct Hc as [->|[[s ->]|[s ->]]].
    + apply IH, Hm.
    + specialize (IH init (with_text m s) eq_refl).
      destruct (frames _ _) as [e|f]; [|exact IH].
      destruct IH as (hist & Ha & Hne & Hd). simpl in Ha.
      exists (DeltaApplied s :: hist).
      split; [rewrite Ha, <- app_assoc; reflexivity|].
      split; [exact Hne|].
      simpl. intros Hall. rewrite (Hd Hall), with_text_app. reflexivity.
    + specialize (IH (init ++ [m]) _ eq_refl).
      destruct (frames _ _) as [e|f]; [|exact IH].
      destruct IH as (hist & Ha & Hne & Hd). simpl in Ha.
      exists (ErrorShown s :: hist).
      split; [rewrite Ha, <- app_assoc; reflexivity|].
      split; [exact Hne|].
      simpl. discriminate.
Qed.

End Frames.

(** ** The states the component reaches *)

Section Reachable.
Context `{Platform}.

Lemma initial_consistent : consistent initial.
Proof. unfold consistent; simpl. repeat split; try discriminate; done. Qed.

Lemma snoc_not_nil {A} (l : list A) (x : A) : l ++ [x] <> [].
Proof. destruct l; discriminate. Qed.

Lemma catch_consistent message st :
  exists st', catch message st = Ok st' /\ consistent st' /\
    messages st' = messages st ++ [{| role := ai; text := lit "Error: " ++ message |}] /\
    loading st' = false /\ abortRef st' = false /\ phase st' = Idle /\
    requests st' = requests st /\ applied st' = applied st /\ input st' = input st.
Proof.
  eexists. split; [reflexivity|]. unfold consistent; simpl.
  repeat split; try done. apply snoc_not_nil.
Qed.

Lemma step_consistent v st ev :
  consistent st ->
  match step v st ev with
  | Ok st' => consistent st'
  | Crash f => f = NotPrimitive
  end.
Proof.
  intros (Hne & Hidle & Hbusy).
  assert (Hst : consistent st) by (split; [|split]; assumption).
  destruct ev as [value| | |status body|message|value|]; simpl.
  - exact Hst.
  - unfold sendMessage. destruct (_ || _); [exact Hst|].
    unfold consistent; simpl. split; [|split; [discriminate | done]].
    destruct (messages st); discriminate.
  - destruct v; [|exact Hst]. unfold stopStreaming.
    destruct (abortRef st); [|exact Hst].
    destruct (phase st); [exact Hst| |];
      destruct (catch_consistent abort_message st) as (st' & -> & Hc & _);
      exact Hc.
  - destruct (phase st) eqn:Hp; try exact Hst.
    unfold on_response. destruct (_ || _).
    + destruct (catch_consistent (lit "HTTP " ++ of_int status) st)
        as (st' & -> & Hc & _). exact Hc.
    + unfold consistent; simpl.
      repeat split; try done; apply Hbusy; discriminate.
  - destruct (phase st); [exact Hst| |];
      destruct (catch_consistent message st) as (st' & -> & Hc & _);
      exact Hc.
  - destruct (phase st) as [| |d buf] eqn:Hp; try exact Hst.
    unfold on_chunk. destruct (TextDecoder.decode d value) as [d1 s1].
    destruct (exists_last Hne) as (init & m & Hm).
    pose proof (frames_history (buf ++ s1) (chat_of st) init m Hm) as Hh.
    destruct (frames (buf ++ s1) (chat_of st)) as [e|f]; simpl; [|exact Hh].
    destruct Hh as (hist & _ & Hne' & _).
    destruct v, (saw_end e); unfold consistent; simpl;
      repeat split; try done; apply Hbusy; discriminate.
  - destruct (phase st); try exact Hst.
    unfold consistent; simpl. repeat split; done.
Qed.

Lemma run_consistent v evs : forall st,
  consistent st ->
  match run v st evs with
  | Ok st' => consistent st'
  | Crash f => f = NotPrimitive
  end.
Proof.
  induction evs as [|ev evs IH]; intros st Hst; simpl; [exact Hst|].
  pose proof (step_consistent v st ev Hst) as Hs.
  destruct (step v st ev) as [st'|f]; simpl; [apply IH, Hs | exact Hs].
Qed.

End Reachable.

(** ** The history of a session *)

Section History.
Context `{Platform}.

Lemma delta_text_app h1 h2 : delta_text (h1 ++ h2) = delta_text h1 ++ delta_text h2.
Proof. unfold delta_text. rewrite map_app, concat_app. reflexivity. Qed.

Lemma with_text_nil m : with_text m [] = m.
Proof. destruct m. unfold with_text. simpl. rewrite app_nil_r. reflexivity. Qed.

Lemma step_chunk_history v st value init m :
  messages st = init ++ [m] ->
  match step v st (Chunk value) with
  | Ok st' =>
      exists hist,
        applied st' = applied st ++ hist /\
        messages st' <> [] /\
        (forallb is_delta hist = true ->
         messages st' = init ++ [with_text m (delta_text hist)])
  | Crash f => f = NotPrimitive
  end.
Proof.
  intros Hm.
  assert (Hsame : exists hist,
             applied st = applied st ++ hist /\
             messages st <> [] /\
             (forallb is_delta hist = true ->
              messages st = init ++ [with_text m (delta_text hist)])).
  { exists []. rewrite app_nil_r, Hm. split; [reflexivity|].
    split; [apply snoc_not_nil|]. intros _. rewrite with_text_nil. reflexivity. }
  destruct (phase st) as [| |d buf] eqn:Hp.
  - simpl. rewrite Hp. exact Hsame.
  - simpl. rewrite Hp. exact Hsame.
  - rewrite (step_chunk _ _ _ _ _ Hp). unfold on_chunk.
    destruct (TextDecoder.decode d value) as [d1 s1].
    pose proof (frames_history (buf ++ s1) (chat_of st) init m Hm) as Hh.
    destruct (frames (buf ++ s1) (chat_of st)) as [e|f]; simpl; [|exact Hh].
    destruct v, (saw_end e); exact Hh.
Qed.

(** As long as the chunks of a session make the loop append no error
    message, every delta goes to one message, the last one, and it stays
    the last. *)
Lemma chunks_history v cs : forall st init m,
  messages st = init ++ [m] ->
  match run v st (map Chunk cs) with
  | Ok st' =>
      exists hist,
        applied st' = applied st ++ hist /\
        messages st' <> [] /\
        (forallb is_delta hist = true ->
         messages st' = init ++ [with_text m (delta_text hist)])
  | Crash f => f = NotPrimitive
  end.
Proof.
  induction cs as [|value cs IH]; intros st init m Hm.
  - cbn [map run]. exists []. rewrite app_nil_r, Hm. split; [reflexivity|].
    split; [apply snoc_not_nil|]. intros _. rewrite with_text_nil. reflexivity.
  - cbn [map run].
    pose proof (step_chunk_history v st value init m Hm) as Hs.
    destruct (step v st (Chunk value)) as [st1|f]; cbn [bind]; [|exact Hs].
    destruct Hs as (h1 & Ha1 & Hne1 & Hd1).
    destruct (forallb is_delta h1) eqn:Hall1.
    + specialize (IH st1 init _ (Hd1 eq_refl)).
      destruct (run v st1 (map Chunk cs)) as [st2|f]; [|exact IH].
      destruct IH as (h2 & Ha2 & Hne2 & Hd2).
      exists (h1 ++ h2). split; [rewrite Ha2, Ha1, app_assoc; reflexivity|].
      split; [exact Hne2|].
      rewrite forallb_app, Hall1. cbn [andb]. intros Hall2.
      rewrite (Hd2 Hall2), with_text_app, delta_text_app. reflexivity.
    + destruct (exists_last Hne1) as (init1 & m1 & Hm1).
      specialize (IH st1 init1 m1 Hm1).
      destruct (run v st1 (map Chunk cs)) as [st2|f]; [|exact IH].
      destruct IH as (h2 & Ha2 & Hne2 & _).
      exists (h1 ++ h2). split; [rewrite Ha2, Ha1, app_assoc; reflexivity|].
      split; [exact Hne2|].
      rewrite forallb_app, Hall1. discriminate.
Qed.

End History.

(** ** Frames and payloads *)

Section FrameClaims.
Context `{Platform}.

Lemma data_frame raw c :
  startsWith raw (lit "data:") = true ->
  frame_body raw c = on_data (trim (slice_from raw 5)) c.
Proof.
  intros Hd. unfold frame_body.
  destruct raw as [|c0 raw]; [discriminate|].
  assert (c0 = 100) as ->.
  { change (lit "data:") with [100; 97; 116; 97; 58] in Hd.
    cbn [startsWith] in Hd. apply andb_prop in Hd as [Hc _].
    apply Z.eqb_eq in Hc. congruence. }
  rewrite Hd. unfold str_eqb. rewrite bool_decide_eq_false_2 by discriminate.
  change (startsWith (100 :: raw) (lit "event:")) with false.
  reflexivity.
Qed.

(** C4, as the code has it. A frame is classified by the start of its
    trimmed text, not line by line: a frame that is empty or begins with
    [event:] is skipped whole, together with any [data:] line after the
    event line; a payload is processed only when the frame begins with
    [data:], and it is then all the text after that prefix, trimmed; a
    frame that begins with neither is skipped. *)
Theorem C4_frame_classified_by_its_start raw c :
  (raw = [] \/ startsWith raw (lit "event:") = true ->
   frame_body raw c = Ok (Continue c)) /\
  (startsWith raw (lit "data:") = true ->
   frame_body raw c = on_data (trim (slice_from raw 5)) c) /\
  (startsWith raw (lit "event:") = false ->
   startsWith raw (lit "data:") = false ->
   frame_body raw c = Ok (Continue c)).
Proof.
  split; [|split].
  - intros [->|He]; [reflexivity|].
    unfold frame_body. rewrite He. destruct (str_eqb raw []); reflexivity.
  - apply data_frame.
  - intros He Hd. unfold frame_body. rewrite He, Hd.
    destruct (str_eqb raw []); reflexivity.
Qed.

(** C5, as the code has it. With a conversation that is not empty: a
    payload that parses with a truthy [delta] appends the string form of
    the delta to the last message of the conversation; a payload with a
    falsy [delta] and a truthy [error] appends a new assistant message
    ["Error: " + error] and leaves every message there was as it is. The
    message that [sendMessage] opened is the last one, and so the target
    of every delta of the session, as long as the session has appended no
    error message. *)
Theorem C5_delta_goes_to_last_message init m :
  (forall c data parsed s,
      chat_messages c = init ++ [m] ->
      data <> lit "end" ->
      JSON_parse data = Some parsed ->
      ToBoolean (optional_get parsed (lit "delta")) = true ->
      ToString (optional_get parsed (lit "delta")) = Some s ->
      on_data data c =
      Ok (Continue {| chat_messages := init ++ [with_text m s];
                      chat_applied := chat_applied c ++ [DeltaApplied s] |})) /\
  (forall c data parsed s,
      chat_messages c = init ++ [m] ->
      data <> lit "end" ->
      JSON_parse data = Some parsed ->
      ToBoolean (optional_get parsed (lit "delta")) = false ->
      ToBoolean (optional_get parsed (lit "error")) = true ->
      ToString (optional_get parsed (lit "error")) = Some s ->
      on_data data c =
      Ok (Continue {| chat_messages :=
                        init ++ [m; {| role := ai; text := lit "Error: " ++ s |}];
                      chat_applied := chat_applied c ++ [ErrorShown s] |})) /\
  (forall v st cs st',
      messages st = init ++ [m] ->
      run v st (map Chunk cs) = Ok st' ->
      exists hist,
        applied st' = applied st ++ hist /\
        (forallb is_delta hist = true ->
         messages st' = init ++ [with_text m (delta_text hist)])).
Proof.
  split; [|split].
  - intros c data parsed s Hm Hend Hp Hb Hs. unfold on_data, str_eqb.
    rewrite bool_decide_eq_false_2 by exact Hend.
    rewrite Hp, Hb, Hs. unfold chat_delta.
    rewrite Hm, append_to_last_snoc. reflexivity.
  - intros c data parsed s Hm Hend Hp Hb He Hs. unfold on_data, str_eqb.
    rewrite bool_decide_eq_false_2 by exact Hend.
    rewrite Hp, Hb, He, Hs. unfold chat_error. rewrite Hm. simpl.
    rewrite <- app_assoc. reflexivity.
  - intros v st cs st' Hm Hrun.
    pose proof (chunks_history v cs st init m Hm) as Hh.
    rewrite Hrun in Hh. destruct Hh as (hist & Ha & _ & Hd).
    exists hist. split; assumption.
Qed.

(** C6, as the code has it. With a conversation that is not empty: a
    [data:] payload, other than [end], that [JSON.parse] rejects does not
    end the loop and throws nothing: the frame appends the payload as it
    is to the text of the last message of the conversation, as a delta
    would, and adds no message, so nothing is shown as an error of its
    own. The last message is the one that [sendMessage] opened, and so
    the one that gets the payload, as long as the session has appended no
    error message. *)
Theorem C6_unparsable_payload_is_a_delta init m :
  (forall raw c,
      startsWith raw (lit "data:") = true ->
      trim (slice_from raw 5) <> lit "end" ->
      JSON_parse (trim (slice_from raw 5)) = None ->
      chat_messages c = init ++ [m] ->
      frame_body raw c =
      Ok (Continue
            {| chat_messages := init ++ [with_text m (trim (slice_from raw 5))];
               chat_applied :=
                 chat_applied c ++ [DeltaApplied (trim (slice_from raw 5))] |})) /\
  (forall v st cs st',
      messages st = init ++ [m] ->
      run v st (map Chunk cs) = Ok st' ->
      exists hist,
        applied st' = applied st ++ hist /\
        (forallb is_delta hist = true ->
         messages st' = init ++ [with_text m (delta_text hist)])).
Proof.
  split.
  - intros raw c Hd Hend Hp Hm. rewrite data_frame by exact Hd.
    unfold on_data, str_eqb. rewrite bool_decide_eq_false_2 by exact Hend.
    rewrite Hp. unfold chat_delta. rewrite Hm, append_to_last_snoc.
    reflexivity.
  - intros v st cs st' Hm Hrun.
    pose proof (chunks_history v cs st init m Hm) as Hh.
    rewrite Hrun in Hh. destruct Hh as (hist & Ha & _ & Hd).
    exists hist. split; assumption.
Qed.

End FrameClaims.

(** ** Sending, failing and stopping *)

Section ComponentClaims.
Context `{Platform}.

Lemma sendMessage_accepted st :
  trim (input st) <> [] -> loading st = false ->
  sendMessage st =
  {| messages := messages st ++ [{| role := user; text := trim (input st) |};
                                 {| role := ai; text := [] |}];
     input := [];
     loading := true;
     abortRef := true;
     phase := AwaitFetch;
     requests := requests st ++ [trim (input st)];
     applied := applied st |}.
Proof.
  intros Hne Hl. unfold sendMessage, str_eqb.
  rewrite Hl, bool_decide_eq_false_2 by exact Hne. reflexivity.
Qed.

Lemma sendMessage_refused st :
  trim (input st) = [] \/ loading st = true -> sendMessage st = st.
Proof.
  unfold sendMessage, str_eqb. intros [He| ->].
  - rewrite bool_decide_eq_true_2 by exact He. reflexivity.
  - rewrite orb_true_r. reflexivity.
Qed.

(** C8. A call of [sendMessage] while the input trims to the empty
    string, or while [loading] is set, changes nothing: no request is
    issued, no message is appended and [loading] stays as it is. Any
    other call appends the user message and an empty assistant message,
    sets [loading] and issues the request of the stream. *)
Theorem C8_send_guard v st :
  (trim (input st) = [] \/ loading st = true -> step v st Send = Ok st) /\
  (trim (input st) <> [] -> loading st = false ->
   step v st Send =
   Ok {| messages := messages st ++ [{| role := user; text := trim (input st) |};
                                     {| role := ai; text := [] |}];
         input := [];
         loading := true;
         abortRef := true;
         phase := AwaitFetch;
         requests := requests st ++ [trim (input st)];
         applied := applied st |}).
Proof.
  cbn [step]. split.
  - intros Hno. rewrite sendMessage_refused by exact Hno. reflexivity.
  - intros Hne Hl. rewrite sendMessage_accepted by assumption. reflexivity.
Qed.

(** C7. When a call of [sendMessage] that passes the guard gets a
    response whose status is not in 200..299, or which has no body, the
    conversation gains, after the two messages of the call, the one
    assistant message ["Error: HTTP " + status]; [loading] is cleared, the
    one request of the call is the only one issued, and nothing that the
    network delivers afterwards changes the state. *)
Theorem C7_transport_error v st status body :
  trim (input st) <> [] -> loading st = false ->
  ok status = false \/ body = false ->
  exists st',
    run v st [Send; Response status body] = Ok st' /\
    messages st' =
      messages st ++ [{| role := user; text := trim (input st) |};
                      {| role := ai; text := [] |};
                      {| role := ai; text := lit "Error: HTTP " ++ of_int status |}] /\
    loading st' = false /\
    phase st' = Idle /\
    requests st' = requests st ++ [trim (input st)] /\
    forall evs, Forall (fun ev => is_network ev = true) evs ->
                run v st' evs = Ok st'.
Proof.
  intros Hne Hl Hbad.
  cbn [run step]. rewrite sendMessage_accepted by assumption.
  cbn [bind step phase].
  unfold on_response.
  assert (negb (ok status) || negb body = true) as ->.
  { destruct Hbad as [-> | ->]; [reflexivity | apply orb_true_r]. }
  eexists. split; [reflexivity|]. cbn.
  split; [rewrite <- app_assoc; reflexivity|].
  repeat (split; [reflexivity|]).
  intros evs Hall. apply idle_ignores_network; [reflexivity | exact Hall].
Qed.

(** C3, as the code has it. When the user stops a call in flight, the
    awaited promise rejects and the [catch] clause treats the AbortError
    as any other error: the one assistant message ["Error: " + message of
    the AbortError] is appended. No message there was is changed and no
    delta is applied, [loading] and [abortRef] are cleared, and nothing
    that the network delivers afterwards changes the state. *)
Theorem C3_stop_appends_the_abort_error evs st :
  run BreakOnly initial evs = Ok st -> phase st <> Idle ->
  exists st',
    step BreakOnly st Stop = Ok st' /\
    messages st' =
      messages st ++ [{| role := ai; text := lit "Error: " ++ abort_message |}] /\
    applied st' = applied st /\
    loading st' = false /\
    abortRef st' = false /\
    phase st' = Idle /\
    forall evs', Forall (fun ev => is_network ev = true) evs' ->
                 run BreakOnly st' evs' = Ok st'.
Proof.
  intros Hrun Hp.
  pose proof (run_consistent BreakOnly evs initial initial_consistent) as Hc.
  rewrite Hrun in Hc. destruct Hc as (_ & _ & Hbusy).
  destruct (Hbusy Hp) as [_ Ha].
  cbn [step]. unfold stopStreaming. rewrite Ha.
  destruct (catch_consistent abort_message st)
    as (st' & Hcatch & _ & Hm & Hl & Hr & Hi & _ & Hap & _).
  exists st'. split.
  { destruct (phase st); [done | exact Hcatch | exact Hcatch]. }
  repeat (split; [assumption|]).
  intros evs' Hall. apply idle_ignores_network; assumption.
Qed.

(** C10. In every state the component reaches the conversation is not
    empty, so [out[out.length - 1]] is a message whenever an updater
    reads it, and no updater fails for want of a last message. *)
Theorem C10_conversation_never_empty v evs :
  match run v initial evs with
  | Ok st =>
      messages st <> [] /\
      exists last,
        at_index (messages st) (Z.of_nat (length (messages st)) - 1) = Some last
  | Crash f => f <> LastUndefined
  end.
Proof.
  pose proof (run_consistent v evs initial initial_consistent) as Hc.
  destruct (run v initial evs) as [st|f].
  - destruct Hc as (Hne & _). split; [exact Hne|].
    destruct (exists_last Hne) as (init & m & ->).
    exists m. apply at_index_last.
  - rewrite Hc. discriminate.
Qed.

End ComponentClaims.

(** ** Whole sessions *)

Section Sessions.
Context `{Platform}.

Lemma session_start_drained v question st :
  run v initial [Typed question; Send; Response 200 true] = Ok st ->
  drained st.
Proof.
  cbn [run step bind].
  destruct (decide (trim question = [])) as [He|Hne].
  - rewrite sendMessage_refused by (left; exact He).
    cbn [phase bind]. intros [= <-]. exact I.
  - rewrite sendMessage_accepted by (try exact Hne; reflexivity).
    cbn [phase bind]. intros [= <-]. reflexivity.
Qed.

(** The later revision, from the mounting of the component on: two
    streams with the same bytes give the same state, however they are
    cut into chunks. *)
Theorem cancel_reader_chunking_irrelevant question cs1 cs2 :
  concat cs1 = concat cs2 ->
  run CancelReader initial (session question cs1) =
  run CancelReader initial (session question cs2).
Proof.
  intros Heq. unfold session.
  rewrite !(run_app CancelReader initial [Typed question; Send; Response 200 true]).
  destruct (run CancelReader initial [Typed question; Send; Response 200 true])
    as [st|f] eqn:Hst; [|reflexivity].
  cbn [bind].
  apply chunking_irrelevant; [|exact Heq|left; reflexivity].
  eapply session_start_drained, Hst.
Qed.

End Sessions.

(** ** The streams of the specification, run *)

Module Scenarios.
Import Reference Examples.
#[local] Existing Instance browser.

(** A delta cut in two chunks is applied once it is complete. *)
Example delta_across_chunks v :
  shown (run v initial
           (session (lit "hi") [wire "data: {'delta':'Hel"; wire "lo'}||"])) =
  Some ([hello; (user, lit "hi"); (ai, lit "Hello")],
        [DeltaApplied (lit "Hello")], false).
Proof. destruct v; vm_compute; reflexivity. Qed.

(** A character cut in two chunks is decoded once it is complete. *)
Example character_across_chunks v :
  shown (run v initial
           (session (lit "hi")
              [[x64; x61; x74; x61; x3a; x20; xe2; x82];
               [xac; x0a; x0a]])) =
  Some ([hello; (user, lit "hi"); (ai, [0x20AC])],
        [DeltaApplied [0x20AC]], false).
Proof. destruct v; vm_compute; reflexivity. Qed.

Example plain_text_reply v :
  shown (run v initial (session (lit "hi") [wire "data: plain text reply||"])) =
  Some ([hello; (user, lit "hi"); (ai, lit "plain text reply")],
        [DeltaApplied (lit "plain text reply")], false).
Proof. destruct v; vm_compute; reflexivity. Qed.

Example error_payload v :
  shown (run v initial
           (session (lit "hi") [wire "data: {'error':'rate limited'}||"])) =
  Some ([hello; (user, lit "hi"); (ai, []); (ai, lit "Error: rate limited")],
        [ErrorShown (lit "rate limited")], false).
Proof. destruct v; vm_compute; reflexivity. Qed.

Example status_500 v :
  shown (run v initial [Typed (lit "hi"); Send; Response 500 true]) =
  Some ([hello; (user, lit "hi"); (ai, []); (ai, lit "Error: HTTP 500")],
        [], false).
Proof. destruct v; vm_compute; reflexivity. Qed.

(** A delta whose value has no string form fails the render. *)
Example delta_without_string_form v :
  run v initial
    (session (lit "hi") [wire "data: {'delta':{'toString':1}}||"]) =
  Crash NotPrimitive.
Proof. destruct v; vm_compute; reflexivity. Qed.

(** C1, at a stream on which the first revision fails it. The same bytes
    give two conversations: in one chunk, the loop leaves at [end] and
    the frame after it is still in the buffer when the stream closes; cut
    after the [end] frame, the next turn of the read loop applies that
    frame. The later revision gives the first conversation for both. *)
Theorem C1_first_revision_depends_on_chunking :
  let whole := wire "data: {'delta':'Hi'}||data: end||data: {'delta':' there'}||" in
  let cut := [wire "data: {'delta':'Hi'}||data: end||";
              wire "data: {'delta':' there'}||"] in
  concat cut = whole /\
  shown (run BreakOnly initial (session (lit "hi") [whole])) =
    Some ([hello; (user, lit "hi"); (ai, lit "Hi")],
          [DeltaApplied (lit "Hi")], false) /\
  shown (run BreakOnly initial (session (lit "hi") cut)) =
    Some ([hello; (user, lit "hi"); (ai, lit "Hi there")],
          [DeltaApplied (lit "Hi"); DeltaApplied (lit " there")], false) /\
  shown (run CancelReader initial (session (lit "hi") cut)) =
    shown (run CancelReader initial (session (lit "hi") [whole])).
Proof. vm_compute. repeat split. Qed.

(** C2, at the stream of the second scenario of the specification, on
    which the first revision fails it: after the [end] frame the read
    loop takes the next chunk, and the delta in it is applied. A frame
    that follows [end] in its own chunk waits in the buffer and is applied
    as soon as one more chunk, even an empty one, arrives. The later
    revision stops at [end]. *)
Theorem C2_first_revision_reads_on_after_end :
  let chunks := [wire "data: end||"; wire "data: {'delta':'ignored'}||"] in
  let chunks' := [wire "data: end||data: {'delta':'ignored'}||"; []] in
  shown (run BreakOnly initial (session (lit "hi") chunks)) =
    Some ([hello; (user, lit "hi"); (ai, lit "ignored")],
          [DeltaApplied (lit "ignored")], false) /\
  shown (run BreakOnly initial (session (lit "hi") chunks')) =
    Some ([hello; (user, lit "hi"); (ai, lit "ignored")],
          [DeltaApplied (lit "ignored")], false) /\
  shown (run CancelReader initial (session (lit "hi") chunks)) =
    Some ([hello; (user, lit "hi"); (ai, [])], [], false) /\
  shown (run CancelReader initial (session (lit "hi") chunks')) =
    Some ([hello; (user, lit "hi"); (ai, [])], [], false).
Proof. vm_compute. repeat split. Qed.

(** C9, at a stream on which the two revisions differ: a chunk that
    comes after the one with the [end] frame is consumed by the first
    revision and not by the later one. *)
Theorem C9_revisions_differ_after_end :
  let chunks := [wire "data: {'delta':'4'}||data: end||";
                 wire "data: {'delta':'2'}||"] in
  shown (run BreakOnly initial (session (lit "sum") chunks)) =
    Some ([hello; (user, lit "sum"); (ai, lit "42")],
          [DeltaApplied (lit "4"); DeltaApplied (lit "2")], false) /\
  shown (run CancelReader initial (session (lit "sum") chunks)) =
    Some ([hello; (user, lit "sum"); (ai, lit "4")],
          [DeltaApplied (lit "4")], false).
Proof. vm_compute. split; reflexivity. Qed.

(** C3 fails: a call stopped while it waits for a chunk appends a message
    that begins with "Error: ". *)
Lemma C3_counterexample :
  run BreakOnly initial receiving_events = Ok receiving /\
  shown (run BreakOnly initial (receiving_events ++ [Stop])) =
    Some ([hello; (user, lit "hi"); (ai, lit "Hel");
           (ai, lit "Error: signal is aborted without reason")],
          [DeltaApplied (lit "Hel")], false).
Proof. vm_compute. split; reflexivity. Qed.

(** C4 fails: the payload of a frame that has an [event:] line before its
    [data:] line is not processed, while the same [data:] line alone
    is. *)
Lemma C4_counterexample :
  shown (run BreakOnly initial
           (session (lit "hi") [wire "event: message|data: {'delta':'Hi'}||"])) =
    Some ([hello; (user, lit "hi"); (ai, [])], [], false) /\
  shown (run BreakOnly initial
           (session (lit "hi") [wire "data: {'delta':'Hi'}||"])) =
    Some ([hello; (user, lit "hi"); (ai, lit "Hi")],
          [DeltaApplied (lit "Hi")], false).
Proof. vm_compute. split; reflexivity. Qed.

(** C5 fails: after an error payload the message that [sendMessage]
    opened is no longer the last one, and the next delta goes to the
    error message; and a payload with a truthy [error] appends no message
    when it has a truthy [delta] as well. *)
Lemma C5_counterexample :
  shown (run BreakOnly initial
           (session (lit "hi")
              [wire "data: {'error':'rate limited'}||data: {'delta':'Hi'}||"])) =
    Some ([hello; (user, lit "hi"); (ai, []);
           (ai, lit "Error: rate limitedHi")],
          [ErrorShown (lit "rate limited"); DeltaApplied (lit "Hi")], false) /\
  shown (run BreakOnly initial
           (session (lit "hi") [wire "data: {'delta':'Hi','error':'late'}||"])) =
    Some ([hello; (user, lit "hi"); (ai, lit "Hi")],
          [DeltaApplied (lit "Hi")], false).
Proof. vm_compute. split; reflexivity. Qed.

(** C6 fails: after an error payload the message that [sendMessage]
    opened is no longer the last one, and a payload that is no JSON is
    appended to the error message; the opened message stays empty. *)
Lemma C6_counterexample :
  shown (run BreakOnly initial
           (session (lit "hi")
              [wire "data: {'error':'rate limited'}||data: not json||"])) =
    Some ([hello; (user, lit "hi"); (ai, []);
           (ai, lit "Error: rate limitednot json")],
          [ErrorShown (lit "rate limited"); DeltaApplied (lit "not json")], false) /\
  shown (run CancelReader initial
           (session (lit "hi")
              [wire "data: {'error':'rate limited'}||data: not json||"])) =
    Some ([hello; (user, lit "hi"); (ai, []);
           (ai, lit "Error: rate limitednot json")],
          [ErrorShown (lit "rate limited"); DeltaApplied (lit "not json")], false).
Proof. vm_compute. split; reflexivity. Qed.

End Scenarios.

(** ** The theorems at the streams of the examples *)

Module Witnesses.
Import Reference Examples.
#[local] Existing Instance browser.

Lemma C3_witness :
  run BreakOnly initial receiving_events = Ok receiving /\
  phase receiving <> Idle /\
  exists st',
    step BreakOnly receiving Stop = Ok st' /\
    messages st' =
      messages receiving ++
      [{| role := ai; text := lit "Error: " ++ abort_message |}] /\
    applied st' = applied receiving /\
    loading st' = false /\
    abortRef st' = false /\
    phase st' = Idle /\
    forall evs', Forall (fun ev => is_network ev = true) evs' ->
                 run BreakOnly st' evs' = Ok st'.
Proof.
  split; [vm_compute; reflexivity|]. split; [discriminate|].
  apply (C3_stop_appends_the_abort_error receiving_events receiving);
    [vm_compute; reflexivity | discriminate].
Defined.

Lemma C4_witness :
  startsWith event_frame (lit "event:") = true /\
  frame_body event_frame fresh = Ok (Continue fresh) /\
  startsWith delta_frame (lit "data:") = true /\
  frame_body delta_frame fresh =
    on_data (trim (slice_from delta_frame 5)) fresh /\
  startsWith comment_frame (lit "event:") = false /\
  startsWith comment_frame (lit "data:") = false /\
  frame_body comment_frame fresh = Ok (Continue fresh).
Proof.
  destruct (C4_frame_classified_by_its_start event_frame fresh) as (H1 & _).
  destruct (C4_frame_classified_by_its_start delta_frame fresh) as (_ & H2 & _).
  destruct (C4_frame_classified_by_its_start comment_frame fresh) as (_ & _ & H3).
  split; [vm_compute; reflexivity|].
  split; [apply H1; right; vm_compute; reflexivity|].
  split; [vm_compute; reflexivity|].
  split; [apply H2; vm_compute; reflexivity|].
  split; [vm_compute; reflexivity|].
  split; [vm_compute; reflexivity|].
  apply H3; vm_compute; reflexivity.
Defined.

Lemma C5_witness :
  let init := messages initial ++ [{| role := user; text := lit "hi" |}] in
  let m := {| role := ai; text := [] |} in
  let cs := [wire "data: {'delta':'Hel"; wire "lo'}||data: {'delta':'!'}||"] in
  chat_messages fresh = init ++ [m] /\
  on_data (text_of "{'delta':'Hi'}") fresh =
    Ok (Continue {| chat_messages := init ++ [with_text m (lit "Hi")];
                    chat_applied := [DeltaApplied (lit "Hi")] |}) /\
  on_data (text_of "{'error':'rate limited'}") fresh =
    Ok (Continue {| chat_messages :=
                      init ++ [m; {| role := ai;
                                     text := lit "Error: " ++ lit "rate limited" |}];
                    chat_applied := [ErrorShown (lit "rate limited")] |}) /\
  messages (opened (lit "hi")) = init ++ [m] /\
  exists st',
    run BreakOnly (opened (lit "hi")) (map Chunk cs) = Ok st' /\
    applied st' = [DeltaApplied (lit "Hello"); DeltaApplied (lit "!")] /\
    messages st' = init ++ [with_text m (lit "Hello!")].
Proof.
  intros init m cs.
  destruct (C5_delta_goes_to_last_message init m) as (Hdelta & Herror & Hrun).
  split; [reflexivity|].
  split.
  { apply (Hdelta fresh _ (JObject [(lit "delta", JString (lit "Hi"))]));
      [reflexivity | vm_compute; discriminate | vm_compute; reflexivity ..]. }
  split.
  { apply (Herror fresh _ (JObject [(lit "error", JString (lit "rate limited"))]));
      [reflexivity | vm_compute; discriminate | vm_compute; reflexivity ..]. }
  split; [reflexivity|].
  destruct (run BreakOnly (opened (lit "hi")) (map Chunk cs)) as [st'|f] eqn:He;
    [|vm_compute in He; discriminate].
  destruct (Hrun BreakOnly (opened (lit "hi")) cs st' eq_refl He) as (hist & Ha & Hm).
  assert (Hh : applied st' = [DeltaApplied (lit "Hello"); DeltaApplied (lit "!")])
    by (vm_compute in He; injection He as <-; reflexivity).
  rewrite Hh in Ha. cbn [applied opened app] in Ha. subst hist.
  exists st'. split; [reflexivity|]. split; [exact Hh|].
  rewrite (Hm eq_refl). reflexivity.
Defined.

Lemma C6_witness :
  let init := messages initial ++ [{| role := user; text := lit "hi" |}] in
  let m := {| role := ai; text := [] |} in
  let cs := [wire "data: plain te"; wire "xt reply||data: {'delta':||"] in
  startsWith text_frame (lit "data:") = true /\
  trim (slice_from text_frame 5) = lit "plain text reply" /\
  JSON_parse (lit "plain text reply") = None /\
  frame_body text_frame fresh =
    Ok (Continue
          {| chat_messages := init ++ [with_text m (trim (slice_from text_frame 5))];
             chat_applied := [DeltaApplied (trim (slice_from text_frame 5))] |}) /\
  messages (opened (lit "hi")) = init ++ [m] /\
  exists st',
    run BreakOnly (opened (lit "hi")) (map Chunk cs) = Ok st' /\
    applied st' = [DeltaApplied (lit "plain text reply");
                   DeltaApplied (text_of "{'delta':")] /\
    messages st' = init ++ [with_text m (text_of "plain text reply{'delta':")].
Proof.
  intros init m cs.
  destruct (C6_unparsable_payload_is_a_delta init m) as (Hframe & Hrun).
  split; [vm_compute; reflexivity|].
  split; [vm_compute; reflexivity|].
  split; [vm_compute; reflexivity|].
  split.
  { apply (Hframe text_frame fresh);
      [vm_compute; reflexivity | vm_compute; discriminate
      | vm_compute; reflexivity | reflexivity]. }
  split; [reflexivity|].
  destruct (run BreakOnly (opened (lit "hi")) (map Chunk cs)) as [st'|f] eqn:He;
    [|vm_compute in He; discriminate].
  destruct (Hrun BreakOnly (opened (lit "hi")) cs st' eq_refl He) as (hist & Ha & Hm).
  assert (Hh : applied st' = [DeltaApplied (lit "plain text reply");
                              DeltaApplied (text_of "{'delta':")])
    by (vm_compute in He; injection He as <-; reflexivity).
  rewrite Hh in Ha. cbn [applied opened app] in Ha. subst hist.
  exists st'. split; [reflexivity|]. split; [exact Hh|].
  rewrite (Hm eq_refl). reflexivity.
Defined.

Lemma C7_witness :
  trim (input typed) = lit "hi" /\
  ok 500 = false /\
  of_int 500 = lit "500" /\
  exists st',
    run BreakOnly typed [Send; Response 500 true] = Ok st' /\
    messages st' =
      messages typed ++ [{| role := user; text := trim (input typed) |};
                         {| role := ai; text := [] |};
                         {| role := ai; text := lit "Error: HTTP " ++ of_int 500 |}] /\
    loading st' = false /\
    phase st' = Idle /\
    requests st' = requests typed ++ [trim (input typed)] /\
    forall evs, Forall (fun ev => is_network ev = true) evs ->
                run BreakOnly st' evs = Ok st'.
Proof.
  split; [vm_compute; reflexivity|].
  split; [reflexivity|].
  split; [vm_compute; reflexivity|].
  apply (C7_transport_error BreakOnly typed 500 true);
    [vm_compute; discriminate | reflexivity | left; reflexivity].
Defined.

Lemma C8_witness :
  trim (input initial) = [] /\
  step BreakOnly initial Send = Ok initial /\
  loading receiving = true /\
  step BreakOnly receiving Send = Ok receiving /\
  trim (input typed) <> [] /\
  loading typed = false /\
  step BreakOnly typed Send =
    Ok {| messages := messages typed ++ [{| role := user; text := trim (input typed) |};
                                         {| role := ai; text := [] |}];
          input := [];
          loading := true;
          abortRef := true;
          phase := AwaitFetch;
          requests := requests typed ++ [trim (input typed)];
          applied := applied typed |}.
Proof.
  destruct (C8_send_guard BreakOnly initial) as (H1 & _).
  destruct (C8_send_guard BreakOnly receiving) as (H2 & _).
  destruct (C8_send_guard BreakOnly typed) as (_ & H3).
  split; [reflexivity|].
  split; [apply H1; left; reflexivity|].
  split; [reflexivity|].
  split; [apply H2; right; reflexivity|].
  split; [vm_compute; discriminate|].
  split; [reflexivity|].
  apply H3; [vm_compute; discriminate | reflexivity].
Defined.

End Witnesses.

(** * More properties of the streaming component *)

(** ** Flags, stopping and growth *)

Section Lifecycle.
Context `{Platform}.

(** X5. In every state either revision reaches, [loading] is set exactly
    while a call of [sendMessage] is suspended, and [abortRef] holds a
    controller exactly then: every way out of the call clears both. *)
Theorem busy_exactly_in_flight v evs :
  match run v initial evs with
  | Ok st =>
      (loading st = true <-> phase st <> Idle) /\ abortRef st = loading st
  | Crash _ => True
  end.
Proof.
  pose proof (run_consistent v evs initial initial_consistent) as Hc.
  destruct (run v initial evs) as [st|f]; [|exact I].
  destruct Hc as (_ & Hidle & Hbusy).
  assert (Hdec : phase st = Idle \/ phase st <> Idle)
    by (destruct (phase st); [left; reflexivity | right; discriminate ..]).
  destruct Hdec as [Hi|Hn].
  - destruct (Hidle Hi) as [-> ->]. split; [|reflexivity].
    split; [discriminate | intros Hp; contradiction].
  - destruct (Hbusy Hn) as [-> ->]. split; [|reflexivity].
    split; [intros _; exact Hn | reflexivity].
Qed.

Lemma stopStreaming_twice st st' :
  stopStreaming st = Ok st' -> stopStreaming st' = Ok st'.
Proof.
  unfold stopStreaming at 1. destruct (abortRef st) eqn:Ha.
  - destruct (phase st) eqn:Hp.
    + intros [= <-]. unfold stopStreaming. rewrite Ha, Hp. reflexivity.
    + intros [= <-]. reflexivity.
    + intros [= <-]. reflexivity.
  - intros [= <-]. unfold stopStreaming. rewrite Ha. reflexivity.
Qed.

(** X6. Stopping twice is stopping once: the second [stopStreaming] finds no
    controller and appends nothing. *)
Theorem stop_is_idempotent st :
  run BreakOnly st [Stop; Stop] = run BreakOnly st [Stop].
Proof.
  cbn [run step]. destruct (stopStreaming st) as [st'|f] eqn:Hs; [|reflexivity].
  cbn [bind]. rewrite (stopStreaming_twice st st' Hs). reflexivity.
Qed.

End Lifecycle.

Lemma grows_from_refl l : grows_from l l.
Proof.
  intros init m ->. exists [], []. rewrite with_text_nil. reflexivity.
Qed.

Lemma grows_from_trans a b c :
  grows_from a b -> grows_from b c -> grows_from a c.
Proof.
  intros Hab Hbc init m Ha.
  destruct (Hab init m Ha) as (s & rest & Hb).
  destruct rest as [|x rest] using rev_ind.
  - destruct (Hbc init (with_text m s) Hb) as (s' & rest' & Hc).
    exists (s ++ s'), rest'. rewrite Hc, with_text_app. reflexivity.
  - clear IHrest.
    assert (Hb' : b = (init ++ with_text m s :: rest) ++ [x])
      by (rewrite Hb, <- app_assoc; reflexivity).
    destruct (Hbc _ x Hb') as (s' & rest' & Hc).
    exists s, (rest ++ with_text x s' :: rest').
    rewrite Hc, <- app_assoc. reflexivity.
Qed.

Lemma grows_from_snoc l x : grows_from l (l ++ x).
Proof.
  intros init m ->. exists [], x. rewrite with_text_nil, <- app_assoc.
  reflexivity.
Qed.

Lemma grows_from_grown old new : grows_from old new -> grown old new.
Proof.
  intros Hg. destruct old as [|a old]; [exact I|].
  assert (Hne : a :: old <> []) by discriminate.
  destruct (exists_last Hne) as (init & m & Heq).
  destruct (Hg init m Heq) as (s & rest & ->). rewrite Heq.
  clear. induction init as [|b init IH].
  - simpl. split; [reflexivity|]. exists s. reflexivity.
  - change ((b :: init) ++ [m]) with (b :: (init ++ [m])).
    change ((b :: init) ++ with_text m s :: rest)
      with (b :: (init ++ with_text m s :: rest)).
    destruct init as [|b' init]; simpl in *; (split; [reflexivity | exact IH]).
Qed.

Section Growth.
Context `{Platform}.

Lemma frames_grow buffer c :
  forall init m, chat_messages c = init ++ [m] ->
  match frames buffer c with
  | Ok e => exists s rest, chat_messages (exit_chat e) = init ++ with_text m s :: rest
  | Crash _ => True
  end.
Proof.
  apply (frames_ind (fun b c r =>
    forall init m, chat_messages c = init ++ [m] ->
    match r with
    | Ok e => exists s rest, chat_messages (exit_chat e) = init ++ with_text m s :: rest
    | Crash _ => True
    end)).
  - intros b c0 _ init m Hm. exists [], []. simpl.
    rewrite with_text_nil. exact Hm.
  - intros; exact I.
  - intros b c0 _ _ init m Hm. exists [], []. simpl.
    rewrite with_text_nil. exact Hm.
  - intros b c0 c' _ Hb IH init m Hm.
    pose proof (frame_body_cases (trim (slice b 0 (indexOf b delimiter))) c0 init m Hm) as Hc.
    rewrite Hb in Hc. destruct Hc as [->|[[s ->]|[s ->]]].
    + apply IH, Hm.
    + specialize (IH init (with_text m s) eq_refl).
      destruct (frames _ _) as [e|f]; [|exact I].
      destruct IH as (s' & rest & ->).
      exists (s ++ s'), rest. rewrite with_text_app. reflexivity.
    + specialize (IH (init ++ [m]) _ eq_refl).
      destruct (frames _ _) as [e|f]; [|exact I].
      destruct IH as (s' & rest & ->).
      exists [], (with_text {| role := ai; text := lit "Error: " ++ s |} s' :: rest).
      rewrite with_text_nil, <- app_assoc. reflexivity.
Qed.

Lemma catch_grows message st st' :
  catch message st = Ok st' -> grows_from (messages st) (messages st').
Proof. intros [= <-]. apply grows_from_snoc. Qed.

Lemma step_grows v st ev :
  match step v st ev with
  | Ok st' => grows_from (messages st) (messages st')
  | Crash _ => True
  end.
Proof.
  destruct ev as [value| | |status body|message|value|]; cbn [step].
  - apply grows_from_refl.
  - unfold sendMessage. destruct (_ || _); [apply grows_from_refl|].
    apply grows_from_snoc.
  - destruct v; [|apply grows_from_refl]. unfold stopStreaming.
    destruct (abortRef st); [|apply grows_from_refl].
    destruct (phase st); [apply grows_from_refl| |];
      apply (catch_grows abort_message st); reflexivity.
  - destruct (phase st); try apply grows_from_refl.
    unfold on_response. destruct (_ || _).
    + apply (catch_grows (lit "HTTP " ++ of_int status) st); reflexivity.
    + apply grows_from_refl.
  - destruct (phase st); [apply grows_from_refl| |];
      apply (catch_grows message st); reflexivity.
  - destruct (phase st) as [| |d buf]; try apply grows_from_refl.
    unfold on_chunk. destruct (TextDecoder.decode d value) as [d1 s1].
    pose proof (frames_grow (buf ++ s1) (chat_of st)) as Hg.
    destruct (frames (buf ++ s1) (chat_of st)) as [e|f]; [|exact I].
    cbn [bind].
    assert (Hgo : grows_from (messages st) (chat_messages (exit_chat e)))
      by (intros init m Hm; exact (Hg init m Hm)).
    destruct v, (saw_end e); exact Hgo.
  - destruct (phase st); apply grows_from_refl.
Qed.

Lemma run_grows v evs : forall st,
  match run v st evs with
  | Ok st' => grows_from (messages st) (messages st')
  | Crash _ => True
  end.
Proof.
  induction evs as [|ev evs IH]; intros st; cbn [run].
  - apply grows_from_refl.
  - pose proof (step_grows v st ev) as Hs.
    destruct (step v st ev) as [st1|f]; cbn [bind]; [|exact I].
    specialize (IH st1). destruct (run v st1 evs) as [st'|f]; [|exact I].
    eapply grows_from_trans; eassumption.
Qed.

(** X7. Whatever happens, in either revision, no message is removed or
    reordered, no role changes, and only the message that is last at the
    time can change, by text added at its end. *)
Theorem conversation_only_grows v st evs :
  match run v st evs with
  | Ok st' => grown (messages st) (messages st')
  | Crash _ => True
  end.
Proof.
  pose proof (run_grows v evs st) as Hg.
  destruct (run v st evs); [apply grows_from_grown, Hg | exact I].
Qed.

End Growth.

(** ** Trimming *)

Lemma trimStart_snoc x a :
  trimStart (x ++ [a]) =
  match trimStart x with
  | [] => if is_space a then [] else [a]
  | _ :: _ => trimStart x ++ [a]
  end.
Proof.
  induction x as [|c x IH]; [reflexivity|].
  change ((c :: x) ++ [a]) with (c :: (x ++ [a])). cbn [trimStart].
  destruct (is_space c); [exact IH | reflexivity].
Qed.

Lemma trimEnd_nil : trimEnd [] = [].
Proof. reflexivity. Qed.

Lemma trimEnd_cons a z :
  trimEnd (a :: z) =
  match trimEnd z with
  | [] => if is_space a then [] else [a]
  | _ :: _ => a :: trimEnd z
  end.
Proof.
  unfold trimEnd. cbn [rev]. rewrite trimStart_snoc.
  destruct (trimStart (rev z)) as [|c t] eqn:E.
  - cbn [rev]. destruct (is_space a); reflexivity.
  - rewrite rev_app_distr. cbn [rev app].
    destruct (rev t ++ [c]) eqn:E'; [|reflexivity].
    destruct (rev t); discriminate.
Qed.

Lemma trimEnd_blank z : trimEnd z = [] -> trimStart z = [].
Proof.
  induction z as [|a z IH]; [reflexivity|].
  rewrite trimEnd_cons. cbn [trimStart].
  destruct (trimEnd z) eqn:E; [|discriminate].
  destruct (is_space a); [intros _; apply IH; reflexivity | discriminate].
Qed.

Lemma trimStart_trimEnd z : trimStart (trimEnd z) = trimEnd (trimStart z).
Proof.
  induction z as [|a z IH]; [reflexivity|].
  rewrite trimEnd_cons. cbn [trimStart].
  destruct (is_space a) eqn:Ea.
  - destruct (trimEnd z) as [|c t] eqn:E.
    + rewrite (trimEnd_blank z E). reflexivity.
    + cbn [trimStart]. rewrite Ea. exact IH.
  - rewrite trimEnd_cons.
    destruct (trimEnd z) as [|c t] eqn:E; cbn [trimStart]; rewrite Ea; reflexivity.
Qed.

Lemma trimEnd_idem z : trimEnd (trimEnd z) = trimEnd z.
Proof.
  induction z as [|a z IH]; [reflexivity|].
  rewrite trimEnd_cons.
  destruct (trimEnd z) as [|c t] eqn:E.
  - destruct (is_space a) eqn:Ea; [reflexivity|].
    rewrite trimEnd_cons, trimEnd_nil, Ea. reflexivity.
  - rewrite trimEnd_cons, IH. reflexivity.
Qed.

(** Trimming what is left of a trimmed text is trimming the text. *)
Lemma trim_trimEnd z : trim (trimEnd z) = trim z.
Proof.
  unfold trim. rewrite trimStart_trimEnd, trimEnd_idem. reflexivity.
Qed.

Lemma trimEnd_data p :
  trimEnd (lit "data: " ++ p) = lit "data:" ++ trimEnd (32 :: p).
Proof.
  change (lit "data: " ++ p) with (100 :: 97 :: 116 :: 97 :: 58 :: 32 :: p).
  change (lit "data:") with [100; 97; 116; 97; 58].
  rewrite 5 trimEnd_cons.
  destruct (trimEnd (32 :: p)) as [|c t]; reflexivity.
Qed.

(** ** Frames on the wire *)

Lemma startsWith_app_self p y : startsWith (p ++ y) p = true.
Proof.
  induction p as [|c p IH]; [destruct y; reflexivity|].
  cbn [app startsWith]. rewrite Z.eqb_refl. exact IH.
Qed.

Lemma indexOf_from_first i x y :
  Forall (fun c => c <> 10) x ->
  indexOf_from i (x ++ delimiter ++ y) delimiter = i + Z.of_nat (length x).
Proof.
  intros Hx. revert i. induction Hx as [|c x Hc _ IH]; intros i.
  - change ([] ++ delimiter ++ y) with (10 :: (10 :: y)).
    rewrite indexOf_from_cons.
    change (10 :: 10 :: y) with (delimiter ++ y).
    rewrite startsWith_app_self. cbn [length]. lia.
  - change ((c :: x) ++ delimiter ++ y) with (c :: (x ++ delimiter ++ y)).
    rewrite indexOf_from_cons.
    assert (startsWith (c :: x ++ delimiter ++ y) delimiter = false) as ->.
    { unfold delimiter. cbn [startsWith].
      destruct (Z.eqb_spec 10 c) as [E|_]; [congruence | reflexivity]. }
    rewrite IH. cbn [length]. lia.
Qed.

Lemma slice_whole_prefix x y :
  slice (x ++ y) 0 (Z.of_nat (length x)) = x.
Proof.
  rewrite slice_prefix by (rewrite length_app; lia).
  rewrite Nat2Z.id. apply take_app_length.
Qed.

Lemma slice_from_suffix x y :
  slice_from (x ++ y) (Z.of_nat (length x)) = y.
Proof.
  rewrite slice_from_drop by (rewrite length_app; lia).
  rewrite Nat2Z.id. apply drop_app_length.
Qed.

Section Framing.
Context `{Platform}.

(** A [data:] frame hands its payload, trimmed, to the payload handler;
    the blank after the colon is optional. *)
Lemma frame_body_data p c :
  frame_body (trim (lit "data: " ++ p)) c = on_data (trim p) c.
Proof.
  assert (Hraw : trim (lit "data: " ++ p) = lit "data:" ++ trimEnd (32 :: p)).
  { unfold trim. change (trimStart (lit "data: " ++ p)) with (lit "data: " ++ p).
    apply trimEnd_data. }
  rewrite Hraw. rewrite data_frame by apply startsWith_app_self.
  replace (slice_from (lit "data:" ++ trimEnd (32 :: p)) 5)
    with (trimEnd (32 :: p)) by (symmetry; apply (slice_from_suffix (lit "data:"))).
  rewrite trim_trimEnd. reflexivity.
Qed.

(** X9. The frame loop undoes the framing: on the wire form of a sequence of
    payloads without line feeds it calls the payload handler on each
    payload, trimmed, in order, up to the first [end]; what follows the
    last delimiter stays in the buffer. *)
Theorem frames_of_data_frames payloads tail c :
  Forall (Forall (fun u => u <> 10)) payloads ->
  indexOf tail delimiter = -1 ->
  frames (data_frames payloads ++ tail) c = dispatch payloads tail c.
Proof.
  intros Hp Ht. revert c. induction Hp as [|p payloads Hp _ IH]; intros c.
  - cbn. apply frames_without_frame, Ht.
  - unfold data_frames. cbn [map concat]. fold (data_frames payloads).
    set (x := lit "data: " ++ p).
    assert (Hx : Forall (fun u => u <> 10) x).
    { apply Forall_app. split; [|exact Hp].
      repeat (constructor; [discriminate|]). constructor. }
    replace ((lit "data: " ++ p ++ delimiter) ++ data_frames payloads)
      with (x ++ delimiter ++ data_frames payloads)
      by (unfold x; rewrite <- !app_assoc; reflexivity).
    rewrite <- !app_assoc.
    rewrite frames_unfold. cbv zeta.
    unfold indexOf. rewrite (indexOf_from_first 0 x _ Hx).
    destruct (Z.eqb_spec (0 + Z.of_nat (length x)) (-1)) as [E|_]; [lia|].
    rewrite Z.add_0_l, slice_whole_prefix.
    replace (slice_from (x ++ delimiter ++ data_frames payloads ++ tail)
               (Z.of_nat (length x) + 2))
      with (data_frames payloads ++ tail).
    2:{ rewrite (app_assoc x delimiter).
        replace (Z.of_nat (length x) + 2) with (Z.of_nat (length (x ++ delimiter)))
          by (rewrite length_app; cbn; lia).
        symmetry. apply slice_from_suffix. }
    unfold x. rewrite frame_body_data. cbn [dispatch].
    destruct (on_data (trim p) c) as [[c'|]|f]; cbn [bind]; [apply IH | reflexivity ..].
Qed.

End Framing.

(** ** More on chunks *)

Lemma decode_chunks_concat d chunks :
  decode_chunks d chunks = TextDecoder.decode d (concat chunks).
Proof.
  revert d. induction chunks as [|value chunks IH]; intros d; [reflexivity|].
  cbn [decode_chunks concat]. rewrite decode_app.
  destruct (TextDecoder.decode d value) as [d1 s1]. rewrite IH. reflexivity.
Qed.

Lemma indexOf_prefix_none s t :
  indexOf (s ++ t) delimiter = -1 -> indexOf s delimiter = -1.
Proof.
  intros Hst. destruct (Z.eq_dec (indexOf s delimiter) (-1)) as [E|Hf]; [exact E|].
  pose proof (indexOf_app s delimiter t Hf) as Happ.
  rewrite Hst in Happ. congruence.
Qed.

Section MoreChunks.
Context `{Platform}.

Lemma session_opens v question :
  trim question <> [] ->
  run v initial [Typed question; Send; Response 200 true] =
  Ok (opened (trim question)).
Proof.
  intros Hne. cbn [run step bind].
  rewrite sendMessage_accepted by (try exact Hne; reflexivity).
  reflexivity.
Qed.

Lemma session_refused v question :
  trim question = [] ->
  run v initial [Typed question; Send; Response 200 true] =
  Ok {| messages := messages initial;
        input := question;
        loading := false;
        abortRef := false;
        phase := Idle;
        requests := [];
        applied := [] |}.
Proof.
  intros He. cbn [run step bind].
  rewrite sendMessage_refused by (left; exact He). reflexivity.
Qed.

Lemma chunks_then_done_are_network (chunks : list (list Byte.byte)) :
  Forall (fun ev => is_network ev = true) (map Chunk chunks ++ [Done]).
Proof.
  apply Forall_app. split; [apply chunks_are_network|].
  constructor; [reflexivity | constructor].
Qed.

(** X2. The first revision, too, assembles the same conversation however the
    bytes are cut into chunks, on every stream in which its loop reaches no
    [end] frame. *)
Theorem break_only_chunking_irrelevant question chunks1 chunks2 :
  concat chunks1 = concat chunks2 ->
  sees_end (opened (trim question)) (concat chunks1) = false ->
  run BreakOnly initial (session question chunks1) =
  run BreakOnly initial (session question chunks2).
Proof.
  intros Heq Hs. unfold session.
  rewrite !(run_app BreakOnly initial [Typed question; Send; Response 200 true]).
  destruct (decide (trim question = [])) as [He|Hne].
  - rewrite session_refused by exact He. cbn [bind].
    rewrite !idle_ignores_network
      by (first [reflexivity | apply chunks_then_done_are_network]).
    reflexivity.
  - rewrite session_opens by exact Hne. cbn [bind].
    rewrite !run_app.
    rewrite (chunks_concat BreakOnly chunks1) by (first [reflexivity | right; exact Hs]).
    rewrite Heq in Hs.
    rewrite (chunks_concat BreakOnly chunks2) by (first [reflexivity | right; exact Hs]).
    rewrite Heq. reflexivity.
Qed.

(** X8. A stream whose text holds no blank line changes nothing: frames are
    processed only once their delimiter is there, and what is in the
    buffer when the stream closes is dropped. *)
Theorem unterminated_text_is_dropped v st decoder buffer chunks :
  phase st = AwaitRead decoder buffer ->
  indexOf (buffer ++ snd (TextDecoder.decode decoder (concat chunks))) delimiter = -1 ->
  exists st',
    run v st (map Chunk chunks ++ [Done]) = Ok st' /\
    messages st' = messages st /\
    applied st' = applied st /\
    loading st' = false /\
    phase st' = Idle.
Proof.
  intros Hp Hnone.
  assert (Hdr : drained st).
  { unfold drained. rewrite Hp. eapply indexOf_prefix_none, Hnone. }
  assert (Hs : sees_end st (concat chunks) = false).
  { unfold sees_end. rewrite Hp.
    destruct (TextDecoder.decode decoder (concat chunks)) as [d1 s1].
    cbn [snd] in Hnone. rewrite frames_without_frame by exact Hnone. reflexivity. }
  rewrite run_app, (chunks_concat v chunks st Hdr (or_intror Hs)).
  rewrite (step_chunk _ _ _ _ _ Hp). unfold on_chunk.
  destruct (TextDecoder.decode decoder (concat chunks)) as [d1 s1].
  cbn [snd] in Hnone. rewrite frames_without_frame by exact Hnone.
  cbn [bind saw_end].
  eexists. split; [destruct v; reflexivity|].
  repeat split.
Qed.




(** X13. A payload that is JSON but no object (a number, a quoted string,
    [true], [null], an array) has neither a [delta] nor an [error]: the
    frame changes nothing. *)
Theorem json_that_is_no_object_is_ignored data parsed c :
  data <> lit "end" ->
  JSON_parse data = Some parsed ->
  (forall members, parsed <> JObject members) ->
  on_data data c = Ok (Continue c).
Proof.
  intros Hend Hp Hno. unfold on_data, str_eqb.
  rewrite bool_decide_eq_false_2 by exact Hend. rewrite Hp.
  assert (Hget : forall key, optional_get parsed key = JUndefined).
  { intros key. destruct parsed; try reflexivity. destruct (Hno members eq_refl). }
  rewrite !Hget. reflexivity.
Qed.

End MoreChunks.

(** * The base of the API *)

Module ApiFacts.
Import Api.

Lemma strip_slash_snoc b : strip_slash (b ++ [47]) = b.
Proof.
  unfold strip_slash. rewrite rev_app_distr. cbn [rev app].
  apply rev_involutive.
Qed.

Lemma strip_slash_other b :
  last b <> Some 47 -> strip_slash b = b.
Proof.
  intros Hl. unfold strip_slash.
  destruct (rev b) as [|c r] eqn:E; [reflexivity|].
  assert (Hb : b = rev r ++ [c]).
  { rewrite <- (rev_involutive b), E. reflexivity. }
  destruct (Z.eq_dec c 47) as [->|Hc].
  - rewrite Hb, last_snoc in Hl. congruence.
  - destruct c as [|p|p]; try reflexivity.
    do 6 (destruct p as [p|p|]; try reflexivity). congruence.
Qed.

Lemma last_strip_slash b :
  last (strip_slash b) = Some 47 <-> exists b', b = b' ++ [47; 47].
Proof.
  destruct b as [|c b] using rev_ind.
  - split; [discriminate|]. intros [b' Hb]. destruct b'; discriminate.
  - clear IHb. destruct (Z.eq_dec c 47) as [->|Hc].
    + rewrite strip_slash_snoc. split.
      * intros Hl. destruct b as [|d b] using rev_ind; [discriminate|].
        rewrite last_snoc in Hl. injection Hl as ->.
        exists b. rewrite <- app_assoc. reflexivity.
      * intros [b' Hb]. change [47; 47] with ([47] ++ [47]) in Hb.
        rewrite app_assoc in Hb. apply app_inj_tail in Hb as [-> _].
        apply last_snoc.
    + rewrite strip_slash_other by (rewrite last_snoc; congruence).
      rewrite last_snoc. split; [congruence|].
      intros [b' Hb]. change [47; 47] with ([47] ++ [47]) in Hb.
      rewrite app_assoc in Hb. apply app_inj_tail in Hb as [_ ->]. congruence.
Qed.

(** X14. [getApiBase] gives a base that ends with a solidus, and so a URL with
    two of them where the path is joined on, exactly when the configured
    base ends with two: one trailing solidus is removed, not all. *)
Theorem base_ends_with_slash_iff_doubled base :
  last (getApiBase base) = Some 47 <-> exists b, base = Some (b ++ [47; 47]).
Proof.
  destruct base as [b|]; cbn [getApiBase].
  - unfold str_eqb. case_bool_decide as Hb.
    + subst b. split; [discriminate|].
      intros [b' [= Hb]]. destruct b'; discriminate.
    + rewrite last_strip_slash. split.
      * intros [b' ->]. exists b'. reflexivity.
      * intros [b' [= ->]]. exists b'. reflexivity.
  - split; [discriminate|]. intros [b' Hb]. discriminate.
Qed.

(** X15. A base is the same with and without a trailing solidus. *)
Theorem trailing_slash_is_immaterial b :
  b <> [] -> last b <> Some 47 ->
  getApiBase (Some (b ++ [47])) = b /\ getApiBase (Some b) = b.
Proof.
  intros Hne Hl. cbn [getApiBase]. unfold str_eqb.
  rewrite !bool_decide_eq_false_2
    by (first [exact Hne | intros E; destruct b; discriminate]).
  rewrite strip_slash_snoc, strip_slash_other by exact Hl. split; reflexivity.
Qed.

(** X16. The two revisions of the chat request the same URL exactly when the
    base is configured: without one, the first falls back to port 8000 and
    the later one to port 5000. *)
Theorem stream_urls_agree_iff_configured base :
  stream_url BreakOnly base = stream_url CancelReader base <->
  exists b, base = Some b /\ b <> [].
Proof.
  unfold stream_url. destruct base as [b|]; cbn [getApiBase API_BASE_or_default].
  - unfold str_eqb. case_bool_decide as Hb.
    + subst b. split; [discriminate|]. intros [b' [[= <-] Hne]]. congruence.
    + split; [|reflexivity]. intros _. exists b. split; [reflexivity | exact Hb].
  - split; [discriminate|]. intros [b' [Hb _]]. discriminate.
Qed.

End ApiFacts.

(** * The facts *)

Module FactsFacts.
Import Facts.

Section Loaded.
Context `{Platform}.

Lemma map_String_length arr l : map_String arr = Some l -> length l = length arr.
Proof.
  revert l. induction arr as [|x arr IH]; intros l; cbn [map_String].
  - intros [= <-]. reflexivity.
  - destruct (ToString x); [|discriminate].
    destruct (map_String arr) as [l'|]; [|discriminate].
    intros [= <-]. cbn [length]. rewrite (IH l' eq_refl). reflexivity.
Qed.

Lemma facts_of_nonempty_spec r l :
  facts_of_nonempty r = Some l <-> facts_of r = Some l /\ l <> [].
Proof.
  unfold facts_of_nonempty, facts_of. destruct r as [data|]; [|split; [discriminate | intros [? _]; discriminate]].
  destruct (facts_array data) as [arr|]; [|split; [discriminate | intros [? _]; discriminate]].
  destruct arr as [|x arr].
  - split; [discriminate|]. cbn [map_String]. intros [[= <-] Hne]. congruence.
  - split; [|intros [Hl _]; exact Hl].
    intros Hl. split; [exact Hl|].
    apply map_String_length in Hl. destruct l; [discriminate | discriminate].
Qed.

(** X17. What [FactBox] reports is what it shows: after loading, [loading] is
    cleared, and the message either names the source and the number of
    facts in the list, which is then not empty, or is the failure message,
    and the list is empty. *)
Theorem box_message_tells_the_facts base backend fallback st :
  let st' := box_load base backend fallback st in
  box_loading st' = false /\
  ((box_facts st' <> [] /\
    box_msg st' = lit "Loaded " ++ of_int (Z.of_nat (length (box_facts st')))
                  ++ lit " facts from backend.") \/
   (box_facts st' <> [] /\
    box_msg st' = lit "Loaded " ++ of_int (Z.of_nat (length (box_facts st')))
                  ++ lit " facts from /public/facts_gpt5.json") \/
   (box_facts st' = [] /\
    box_msg st' = lit "Failed to load facts from backend and fallback.")).
Proof.
  cbv zeta. unfold box_load.
  destruct (facts_of_nonempty backend) as [l|] eqn:Eb.
  - apply facts_of_nonempty_spec in Eb as [_ Hne].
    split; [reflexivity|]. left. split; [exact Hne | reflexivity].
  - destruct (facts_of_nonempty fallback) as [l|] eqn:Ef.
    + apply facts_of_nonempty_spec in Ef as [_ Hne].
      split; [reflexivity|]. right; left. split; [exact Hne | reflexivity].
    + split; [reflexivity|]. right; right. split; reflexivity.
Qed.

(** X18. The fallback file is requested only when the backend gave no facts to
    show: with facts from the backend, one URL is fetched and what the
    fallback would have answered does not matter. *)
Theorem fallback_only_after_backend_fails base backend l :
  facts_of backend = Some l -> l <> [] ->
  forall fallback st,
    box_facts (box_load base backend fallback st) = l /\
    box_fetched (box_load base backend fallback st) =
      box_fetched st ++ [facts_url base] /\
    facts (load base backend fallback mounted) = l /\
    fetched (load base backend fallback mounted) = [facts_url base].
Proof.
  intros Hl Hne fallback st.
  assert (Hn : facts_of_nonempty backend = Some l)
    by (apply facts_of_nonempty_spec; split; assumption).
  unfold box_load, load. rewrite Hn, Hl. repeat split.
Qed.

(** X19. [LeftPane] and [FactBox] show the same facts whenever [LeftPane] shows
    any; they differ only when the backend answers with an empty list,
    which [LeftPane] accepts and [FactBox] replaces by the fallback. *)
Theorem pane_and_box_agree base backend fallback :
  facts (load base backend fallback mounted) = [] \/
  box_facts (box_load base backend fallback box_mounted) =
  facts (load base backend fallback mounted).
Proof.
  unfold load, box_load.
  destruct (facts_of backend) as [l|] eqn:Eb.
  - destruct l as [|x l]; [left; reflexivity|]. right.
    assert (Hn : facts_of_nonempty backend = Some (x :: l))
      by (apply facts_of_nonempty_spec; split; [exact Eb | discriminate]).
    rewrite Hn. reflexivity.
  - assert (Hn : facts_of_nonempty backend = None).
    { destruct (facts_of_nonempty backend) as [l|] eqn:E; [|reflexivity].
      apply facts_of_nonempty_spec in E as [E _]. congruence. }
    rewrite Hn.
    destruct (facts_of fallback) as [l|] eqn:Ef.
    + destruct l as [|x l]; [left; reflexivity|]. right.
      assert (Hf : facts_of_nonempty fallback = Some (x :: l))
        by (apply facts_of_nonempty_spec; split; [exact Ef | discriminate]).
      rewrite Hf. reflexivity.
    + left; reflexivity.
Qed.

End Loaded.

Lemma tick_facts st : facts (tick st) = facts st.
Proof. unfold tick. destruct (_ =? 0); reflexivity. Qed.

Lemma tick_idx st :
  facts st <> [] ->
  idx (tick st) = Z.rem (idx st + 1) (Z.of_nat (length (facts st))).
Proof.
  intros Hne. unfold tick.
  destruct (Z.eqb_spec (Z.of_nat (length (facts st))) 0) as [E|_]; [|reflexivity].
  destruct (facts st); [congruence | cbn [length] in E; lia].
Qed.

Lemma iter_tick_facts n st : facts (Nat.iter n tick st) = facts st.
Proof.
  induction n as [|n IH]; [reflexivity|].
  rewrite Nat.iter_succ, tick_facts. exact IH.
Qed.

Lemma iter_tick_idx n st :
  facts st <> [] -> idx st = 0 ->
  idx (Nat.iter n tick st) = Z.of_nat n mod Z.of_nat (length (facts st)).
Proof.
  intros Hne H0.
  assert (Hlen : 0 < Z.of_nat (length (facts st)))
    by (destruct (facts st); [congruence | cbn [length]; lia]).
  induction n as [|n IH].
  - change (Nat.iter 0 tick st) with st. rewrite H0. reflexivity.
  - rewrite Nat.iter_succ, tick_idx by (rewrite iter_tick_facts; exact Hne).
    rewrite iter_tick_facts, IH.
    pose proof (Z.mod_pos_bound (Z.of_nat n) _ Hlen) as Hb.
    rewrite Z.rem_mod_nonneg by lia.
    rewrite Z.add_mod_idemp_l by lia.
    f_equal. lia.
Qed.

(** X20. The rotation never leaves the list: after any number of ticks the
    facts are those loaded and, when there are any, [idx] is the number of
    ticks modulo their number and [facts[idx]] is one of them; so the
    first fact is back after as many ticks as there are facts. *)
Theorem rotation_stays_in_range `{Platform} base backend fallback n :
  let st0 := load base backend fallback mounted in
  let st := Nat.iter n tick st0 in
  facts st = facts st0 /\
  (facts st = [] \/
   (idx st = Z.of_nat n mod Z.of_nat (length (facts st)) /\
    exists fact, current st = Some fact /\ fact ∈ facts st)).
Proof.
  cbv zeta. set (st0 := load base backend fallback mounted).
  assert (H0 : idx st0 = 0).
  { unfold st0, load. destruct (facts_of backend); [reflexivity|].
    destruct (facts_of fallback); reflexivity. }
  split; [apply iter_tick_facts|].
  destruct (facts st0) as [|x l] eqn:Ef; [left; rewrite iter_tick_facts; exact Ef|].
  right.
  assert (Hne : facts st0 <> []) by (rewrite Ef; discriminate).
  pose proof (iter_tick_idx n st0 Hne H0) as Hi.
  rewrite iter_tick_facts. split; [exact Hi|].
  assert (Hlen : 0 < Z.of_nat (length (facts st0)))
    by (rewrite Ef; cbn [length]; lia).
  pose proof (Z.mod_pos_bound (Z.of_nat n) _ Hlen) as Hb.
  unfold current, at_index. rewrite iter_tick_facts, Hi.
  destruct (Z.eqb_spec (Z.of_nat (length (facts st0))) 0) as [E|_]; [lia|].
  destruct (Z.ltb_spec (Z.of_nat n mod Z.of_nat (length (facts st0))) 0) as [E|_]; [lia|].
  destruct (lookup_lt_is_Some_2 (facts st0)
              (Z.to_nat (Z.of_nat n mod Z.of_nat (length (facts st0))))) as [fact Hf];
    [lia|].
  exists fact. split; [exact Hf|]. eapply list_elem_of_lookup_2, Hf.
Qed.

End FactsFacts.

(** * Line feeds *)

Module LineFeeds.
Import TextDecoder.

Lemma lor_shift_not_10 c x : 0 < c -> 0 <= x -> Z.lor (Z.shiftl c 6) x <> 10.
Proof.
  intros Hc Hx E.
  assert (Hb : Z.testbit (Z.lor (Z.shiftl c 6) x) (Z.log2 c + 6) = true).
  { rewrite Z.lor_spec, Z.shiftl_spec by (pose proof (Z.log2_nonneg c); lia).
    replace (Z.log2 c + 6 - 6) with (Z.log2 c) by lia.
    rewrite Z.bit_log2 by exact Hc. reflexivity. }
  rewrite E in Hb.
  rewrite Z.bits_above_log2 in Hb; [discriminate | lia |].
  change (Z.log2 10) with 3. pose proof (Z.log2_nonneg c). lia.
Qed.

Lemma lor_shift_not_0 c x : c <> 0 \/ x <> 0 -> Z.lor (Z.shiftl c 6) x <> 0.
Proof.
  intros Hcx E. apply Z.lor_eq_0_iff in E as [E1 E2].
  apply Z.shiftl_eq_0_iff in E1; [|lia]. destruct Hcx; congruence.
Qed.

Lemma lor_shift_nonneg c x : 0 <= c -> 0 <= Z.lor (Z.shiftl c 6) (Z.land x 0x3F).
Proof.
  intros Hc. apply Z.lor_nonneg. split.
  - apply Z.shiftl_nonneg, Hc.
  - apply Z.land_nonneg. right. lia.
Qed.

Lemma land_low b n : 0 <= n -> Z.land b (Z.ones n) = b mod 2 ^ n.
Proof. intros Hn. apply Z.land_ones, Hn. Qed.

Lemma line_feeds_app s t : line_feeds (s ++ t) = (line_feeds s + line_feeds t)%nat.
Proof. unfold line_feeds. rewrite filter_app, length_app. reflexivity. Qed.

Lemma code_units_feeds cp :
  0 <= cp -> line_feeds (code_units cp) = feeds [cp].
Proof.
  intros Hcp. unfold code_units, line_feeds, feeds.
  destruct (Z.ltb_spec cp 0x10000) as [Hlt|Hge]; [reflexivity|].
  pose proof (proj2 (Z.shiftr_nonneg (cp - 0x10000) 10) ltac:(lia)) as H1.
  assert (H2 : 0 <= Z.land (cp - 65536) 1023) by (apply Z.land_nonneg; right; lia).
  rewrite !filter_cons, filter_nil.
  repeat case_decide; first [lia | reflexivity].
Qed.

Lemma emit_feeds d cp :
  0 <= cp ->
  let '(d', s) := emit d cp in
  line_feeds s = feeds [cp] /\
  code_point d' = code_point d /\ bytes_seen d' = bytes_seen d /\
  bytes_needed d' = bytes_needed d /\ lower_boundary d' = lower_boundary d /\
  upper_boundary d' = upper_boundary d.
Proof.
  intros Hcp. unfold emit. destruct (bom_seen d).
  - split; [apply code_units_feeds, Hcp | repeat split].
  - destruct (Z.eqb_spec cp 0xFEFF) as [->|_].
    + split; [reflexivity | repeat split].
    + split; [apply code_units_feeds, Hcp | repeat split].
Qed.

Lemma steady_fields d d' :
  code_point d' = code_point d -> bytes_seen d' = bytes_seen d ->
  bytes_needed d' = bytes_needed d -> lower_boundary d' = lower_boundary d ->
  upper_boundary d' = upper_boundary d -> steady d -> steady d'.
Proof. unfold steady. intros -> -> -> -> ->. exact id. Qed.

Lemma emit_all_feeds cps : forall d,
  Forall (fun cp => 0 <= cp) cps -> steady d ->
  let '(d', s) := emit_all d cps in
  line_feeds s = feeds cps /\ steady d'.
Proof.
  induction cps as [|cp cps IH]; intros d Hall Hd; cbn [emit_all].
  - split; [reflexivity | exact Hd].
  - inversion Hall as [|? ? Hcp Hall']; subst.
    pose proof (emit_feeds d cp Hcp) as He.
    destruct (emit d cp) as [d1 s1]. destruct He as (Hf & E1 & E2 & E3 & E4 & E5).
    specialize (IH d1 Hall' (steady_fields d d1 E1 E2 E3 E4 E5 Hd)).
    destruct (emit_all d1 cps) as [d2 s2]. destruct IH as [Hf2 Hd2].
    split; [|exact Hd2].
    rewrite line_feeds_app, Hf, Hf2. unfold feeds.
    change (cp :: cps) with ([cp] ++ cps).
    rewrite filter_app, length_app. reflexivity.
Qed.

Lemma lead_feeds d b :
  0 <= b < 256 ->
  let '(d', cps) := lead d b in
  Forall (fun cp => 0 <= cp) cps /\ feeds cps = feeds [b] /\ steady d'
  \/ Forall (fun cp => 0 <= cp) cps /\ feeds cps = feeds [b] /\ d' = d.
Proof.
  intros Hb. unfold lead, feeds.
  destruct (Z.leb_spec b 0x7F) as [H7|H7].
  { right. split; [constructor; [lia | constructor]|]. split; reflexivity. }
  assert (Hnot : filter (fun c => c = 10) [b] = [])
    by (rewrite filter_cons, filter_nil; case_decide; [lia | reflexivity]).
  rewrite Hnot.
  destruct (Z.leb_spec 0xC2 b) as [Hc2|Hc2]; cbn [andb].
  2:{ destruct ((0xE0 <=? b) && (b <=? 0xEF)) eqn:E1;
        [apply andb_prop in E1 as [E1 _]; apply Z.leb_le in E1; lia|].
      destruct ((0xF0 <=? b) && (b <=? 0xF4)) eqn:E2;
        [apply andb_prop in E2 as [E2 _]; apply Z.leb_le in E2; lia|].
      right. split; [constructor; [lia | constructor]|]. split; reflexivity. }
  destruct (Z.leb_spec b 0xDF) as [Hdf|Hdf].
  { left. split; [constructor|]. split; [reflexivity|].
    right. cbn. change 31 with (Z.ones 5). rewrite land_low by lia.
    assert (b mod 2 ^ 5 = b - 192) as ->
      by (symmetry; apply (Z.mod_unique b 32 6); lia).
    lia. }
  destruct (Z.leb_spec 0xE0 b) as [He0|He0]; [|lia]. cbn [andb].
  destruct (Z.leb_spec b 0xEF) as [Hef|Hef].
  { left. split; [constructor|]. split; [reflexivity|].
    right. cbn. change 15 with (Z.ones 4). rewrite land_low by lia.
    assert (b mod 2 ^ 4 = b - 224) as ->
      by (symmetry; apply (Z.mod_unique b 16 14); lia).
    destruct (Z.eqb_spec b 0xE0) as [Ee0|Hne];
      destruct (Z.eqb_spec b 0xED) as [Eed|Hned]; lia. }
  destruct (Z.leb_spec 0xF0 b) as [Hf0|Hf0]; [|lia]. cbn [andb].
  destruct (Z.leb_spec b 0xF4) as [Hf4|Hf4].
  { left. split; [constructor|]. split; [reflexivity|].
    right. cbn. change 7 with (Z.ones 3). rewrite land_low by lia.
    assert (b mod 2 ^ 3 = b - 240) as ->
      by (symmetry; apply (Z.mod_unique b 8 30); lia).
    destruct (Z.eqb_spec b 0xF0) as [Ef0|Hne];
      destruct (Z.eqb_spec b 0xF4) as [Ef4|Hnf]; lia. }
  right. split; [constructor; [lia | constructor]|]. split; reflexivity.
Qed.

Lemma steady_reset d : steady (reset d).
Proof. left. reflexivity. Qed.

Lemma handler_feeds d b :
  0 <= b < 256 -> steady d ->
  let '(d', cps) := handler d b in
  Forall (fun cp => 0 <= cp) cps /\ feeds cps = feeds [b] /\ steady d'.
Proof.
  intros Hb Hd. unfold handler.
  destruct (Z.eqb_spec (bytes_needed d) 0) as [Hn|Hn].
  - pose proof (lead_feeds d b Hb) as Hl.
    destruct (lead d b) as [d' cps].
    destruct Hl as [(H1 & H2 & H3)|(H1 & H2 & ->)]; repeat split; assumption.
  - destruct Hd as [Hd|(Hseen & Hcp & Hlo & Hup & Hnz)]; [contradiction|].
    destruct (Z.ltb_spec b (lower_boundary d)) as [Hlt|Hge]; cbn [orb].
    { pose proof (lead_feeds (reset d) b Hb) as Hl.
      destruct (lead (reset d) b) as [d' cps].
      assert (Hcons : forall cps, feeds (0xFFFD :: cps) = feeds cps)
        by (intros l; unfold feeds; rewrite filter_cons; case_decide; [lia | reflexivity]).
      destruct Hl as [(H1 & H2 & H3)|(H1 & H2 & ->)];
        (split; [constructor; [lia | exact H1]|]);
        (split; [rewrite Hcons; exact H2|]);
        [exact H3 | apply steady_reset]. }
    destruct (Z.ltb_spec (upper_boundary d) b) as [Hgt|Hle].
    { pose proof (lead_feeds (reset d) b Hb) as Hl.
      destruct (lead (reset d) b) as [d' cps].
      assert (Hcons : forall cps, feeds (0xFFFD :: cps) = feeds cps)
        by (intros l; unfold feeds; rewrite filter_cons; case_decide; [lia | reflexivity]).
      destruct Hl as [(H1 & H2 & H3)|(H1 & H2 & ->)];
        (split; [constructor; [lia | exact H1]|]);
        (split; [rewrite Hcons; exact H2|]);
        [exact H3 | apply steady_reset]. }
    assert (Hfb : feeds [b] = 0%nat)
      by (unfold feeds; rewrite filter_cons, filter_nil; case_decide; [lia | reflexivity]).
    pose proof (lor_shift_nonneg (code_point d) b Hcp) as Hnn.
    destruct (Z.eqb_spec (bytes_seen d + 1) (bytes_needed d)) as [Hlast|Hmore].
    + split; [constructor; [exact Hnn | constructor]|].
      split; [|apply steady_reset].
      rewrite Hfb. unfold feeds. rewrite filter_cons, filter_nil.
      case_decide as E; [|reflexivity].
      exfalso. revert E. apply lor_shift_not_10; [|apply Z.land_nonneg; right; lia].
      destruct Hnz as [Hnz|[Hnz _]]; lia.
    + split; [constructor|]. split; [rewrite Hfb; reflexivity|].
      right. cbn. repeat split; try lia.
      left. apply lor_shift_not_0.
      destruct Hnz as [Hnz|[_ Hnz]]; [left; exact Hnz | right].
      change 63 with (Z.ones 6). rewrite land_low by lia.
      assert (b mod 2 ^ 6 = b - 128) as ->
        by (symmetry; apply (Z.mod_unique b 64 2); lia).
      lia.
Qed.

Lemma byte_value_range b : 0 <= byte_value b < 256.
Proof.
  unfold byte_value. pose proof (Byte.to_N_bounded b) as Hb. lia.
Qed.

Lemma decode_feeds value : forall d,
  steady d ->
  let '(d', s) := decode d value in
  line_feeds s = line_feed_bytes value /\ steady d'.
Proof.
  induction value as [|b value IH]; intros d Hd; cbn [decode].
  - split; [reflexivity | exact Hd].
  - pose proof (handler_feeds d (byte_value b) (byte_value_range b) Hd) as Hh.
    destruct (handler d (byte_value b)) as [d1 cps]. destruct Hh as (Hall & Hf & Hd1).
    pose proof (emit_all_feeds cps d1 Hall Hd1) as He.
    destruct (emit_all d1 cps) as [d2 s1]. destruct He as [Hf1 Hd2].
    specialize (IH d2 Hd2). destruct (decode d2 value) as [d3 s2].
    destruct IH as [Hf2 Hd3]. split; [|exact Hd3].
    rewrite line_feeds_app, Hf1, Hf, Hf2. unfold feeds, line_feed_bytes.
    rewrite !filter_cons, filter_nil.
    repeat case_decide; try contradiction; reflexivity.
Qed.

Lemma feeds_after_feed_app prev s t :
  feeds_after_feed prev (s ++ t) =
  feeds_after_feed prev s ++ feeds_after_feed (feed_last prev s) t.
Proof.
  revert prev. induction s as [|u s IH]; intros prev; [reflexivity|].
  cbn [app feeds_after_feed]. unfold feed_last. cbn [fold_left].
  destruct (u =? 10); rewrite IH; reflexivity.
Qed.

Lemma startsWith_delimiter u s :
  startsWith (u :: s) delimiter =
  (u =? 10) && match s with w :: _ => w =? 10 | [] => false end.
Proof.
  change delimiter with [10; 10].
  destruct s as [|w s]; cbn [startsWith]; rewrite (Z.eqb_sym 10 u).
  - rewrite andb_false_r. reflexivity.
  - rewrite (Z.eqb_sym 10 w). destruct s; rewrite andb_true_r; reflexivity.
Qed.

(** [indexOf] finds no delimiter exactly when no line feed comes directly
    after another. *)
Lemma indexOf_from_blank i s prev :
  0 <= i ->
  (indexOf_from i s delimiter = -1 /\ (prev = true -> head s <> Some 10)) <->
  Forall (fun x => x = false) (feeds_after_feed prev s).
Proof.
  revert i prev. induction s as [|u s IH]; intros i prev Hi.
  - cbn. split; [constructor | split; [reflexivity | discriminate]].
  - rewrite indexOf_from_cons, startsWith_delimiter. cbn [feeds_after_feed head].
    destruct (Z.eqb_spec u 10) as [->|Hu]; cbn [andb].
    + specialize (IH (i + 1) true ltac:(lia)).
      rewrite Forall_cons, <- IH.
      destruct s as [|w s]; cbn [head].
      * destruct prev; split; try (intros [? ?]); try (intros (? & ? & ?));
          repeat split; try congruence; try discriminate; try lia; try tauto.
      * destruct (Z.eqb_spec w 10) as [->|Hw].
        -- split; [intros [E _]; lia | intros [_ [_ Hf]]; exfalso; apply Hf; reflexivity].
        -- destruct prev; split; try (intros [? ?]); try (intros (? & ? & ?));
             repeat split; try congruence; try discriminate; try tauto.
    + specialize (IH (i + 1) false ltac:(lia)). rewrite <- IH.
      split.
      * intros [E _]. split; [exact E | discriminate].
      * intros [E _]. split; [exact E | intros _ [= E']; congruence].
Qed.

Lemma indexOf_blank_lines s :
  indexOf s delimiter = -1 <-> Forall (fun x => x = false) (blank_lines s).
Proof.
  unfold indexOf, blank_lines. rewrite <- (indexOf_from_blank 0 s false) by lia.
  split; [intros E; split; [exact E | discriminate] | intros [E _]; exact E].
Qed.

(** One byte: a line feed byte gives a line feed, directly after the last
    code unit exactly when no character was in progress; any other byte
    gives no line feed, and gives some code unit or leaves a character in
    progress, unless it completes the byte order mark that opens the
    stream. *)
Lemma step_blank d b pb pt :
  0 <= b < 256 -> steady d -> paired d pb pt ->
  let '(d1, cps) := handler d b in
  let '(d2, s1) := emit_all d1 cps in
  feeds_after_feed pt s1 = (if b =? 10 then [pb] else []) /\
  paired d2 (b =? 10) (feed_last pt s1).
Proof.
  intros Hb Hd Hp. unfold handler.
  destruct d as [cp seen needed lo hi bs].
  unfold steady in Hd. unfold paired in Hp.
  cbn [bom_seen bytes_needed code_point bytes_seen lower_boundary upper_boundary] in *.
  destruct (Z.eqb_spec needed 0) as [Hn|Hn].
  2: destruct Hd as [Hd|(Hseen & Hcp & Hlo & Hup & Hnz)]; [contradiction|].
  2: destruct (Z.ltb_spec b lo) as [Hlt|Hge]; cbn [orb].
  3: destruct (Z.ltb_spec hi b) as [Hgt|Hle].
  4: pose proof (lor_shift_nonneg cp b Hcp) as Hnn.
  4: destruct (Z.eqb_spec (seen + 1) needed) as [Hlast|Hmore].
  4: { (* the last byte of a character *)
       assert (Hne : Z.lor (Z.shiftl cp 6) (Z.land b 0x3F) <> 10).
       { apply lor_shift_not_10; [|apply Z.land_nonneg; right; lia].
         destruct Hnz as [Hnz|[Hnz _]]; lia. }
       set (c := Z.lor (Z.shiftl cp 6) (Z.land b 0x3F)) in *.
       pose proof (proj2 (Z.shiftr_nonneg (c - 0x10000) 10)) as H1.
       assert (H2 : 0 <= Z.land (c - 65536) 1023) by (apply Z.land_nonneg; right; lia).
       clearbody c. clear Hnz.
       cbn [emit_all]; unfold emit, reset, code_units, paired;
       cbn [bom_seen bytes_needed];
       destruct bs, pb, pt;
       repeat match goal with
       | |- context [?x <? ?y] => destruct (Z.ltb_spec x y)
       | |- context [?x =? ?y] => destruct (Z.eqb_spec x y)
       end; try lia;
       cbn [app feeds_after_feed feed_last fold_left bom_seen bytes_needed];
       repeat match goal with
       | |- context [?x =? ?y] => destruct (Z.eqb_spec x y)
       end; try lia;
       intuition (first [lia | congruence | discriminate | idtac]). }
  (* a first byte, with or without a character cut short before it, and
     a byte in the middle of a character *)
  all: unfold lead, reset; cbn [bom_seen];
    repeat match goal with
    | |- context [?x <=? ?y] => destruct (Z.leb_spec x y); cbn [andb orb]
    | |- context [?x =? ?y] => destruct (Z.eqb_spec x y); cbn [andb orb]
    end; try lia;
    cbn [emit_all]; unfold emit, code_units, paired;
    cbn [bom_seen bytes_needed];
    destruct bs, pb, pt;
    repeat match goal with
    | |- context [?x <? ?y] => destruct (Z.ltb_spec x y)
    | |- context [?x =? ?y] => destruct (Z.eqb_spec x y)
    end; try lia;
    cbn [app feeds_after_feed feed_last fold_left bom_seen bytes_needed];
    repeat match goal with
    | |- context [?x =? ?y] => destruct (Z.eqb_spec x y)
    end; try lia;
    intuition (first [lia | congruence | discriminate | idtac]).
Qed.

Lemma decode_blank value : forall d pb pt,
  steady d -> paired d pb pt ->
  feeds_after_feed pt (snd (decode d value)) =
  feeds_after_feed pb (map byte_value value).
Proof.
  induction value as [|b value IH]; intros d pb pt Hd Hp; [reflexivity|].
  cbn [decode map feeds_after_feed].
  pose proof (handler_feeds d (byte_value b) (byte_value_range b) Hd) as Hh.
  pose proof (step_blank d (byte_value b) pb pt (byte_value_range b) Hd Hp) as Hs.
  destruct (handler d (byte_value b)) as [d1 cps]. destruct Hh as (Hall & _ & Hd1).
  pose proof (emit_all_feeds cps d1 Hall Hd1) as He.
  destruct (emit_all d1 cps) as [d2 s1]. destruct He as [_ Hd2].
  destruct Hs as [Hs1 Hp2].
  specialize (IH d2 (byte_value b =? 10) (feed_last pt s1) Hd2 Hp2).
  destruct (decode d2 value) as [d3 s2]. cbn [snd] in *.
  rewrite feeds_after_feed_app, Hs1, IH.
  destruct (byte_value b =? 10); reflexivity.
Qed.

Lemma decode_without_blank_line value :
  indexOf (map byte_value value) delimiter = -1 ->
  indexOf (snd (decode new value)) delimiter = -1.
Proof.
  rewrite !indexOf_blank_lines. unfold blank_lines.
  rewrite (decode_blank value new false false); [exact id | left; reflexivity|].
  split; [reflexivity | split; [discriminate | intros [E _]; discriminate]].
Qed.

(** X12. The blank lines of the text are the blank lines of the stream.
    Whatever the bytes and however they are cut into chunks: the text has
    a line feed for each line-feed byte and no other; the n-th line feed
    of the text comes directly after another line feed exactly when the
    n-th line-feed byte comes directly after another line-feed byte; and
    so [indexOf] finds a delimiter in the text exactly when the bytes
    hold two line-feed bytes in a row. Characters of several bytes,
    malformed input and the byte order mark neither make a delimiter nor
    break one. *)
Theorem delimiters_are_blank_lines chunks :
  let text := snd (decode_chunks new chunks) in
  let bytes := map byte_value (concat chunks) in
  line_feeds text = line_feed_bytes (concat chunks) /\
  blank_lines text = blank_lines bytes /\
  (indexOf text delimiter = -1 <-> indexOf bytes delimiter = -1).
Proof.
  intros text bytes.
  assert (Hb : blank_lines text = blank_lines bytes).
  { unfold text, bytes, blank_lines. rewrite decode_chunks_concat.
    apply decode_blank; [left; reflexivity|].
    split; [reflexivity | split; [discriminate | intros [E _]; discriminate]]. }
  split; [|split; [exact Hb|]].
  - unfold text. rewrite decode_chunks_concat.
    pose proof (decode_feeds (concat chunks) new (or_introl eq_refl)) as Hd.
    destruct (decode new (concat chunks)) as [d s]. exact (proj1 Hd).
  - rewrite !indexOf_blank_lines, Hb. reflexivity.
Qed.

End LineFeeds.

(** * The chat without streaming *)

Module PlainChatFacts.
Import PlainChat.

Lemma count_app {A} (f : A -> bool) l1 l2 :
  count f (l1 ++ l2) = (count f l1 + count f l2)%nat.
Proof.
  induction l1 as [|x l1 IH]; [reflexivity|].
  cbn [app count]. rewrite IH. lia.
Qed.

Lemma count_insert (l : list Stage) i s s' :
  l !! i = Some s -> is_settled s = false ->
  count is_settled (<[i := s']> l) =
  ((if is_settled s' then 1 else 0) + count is_settled l)%nat.
Proof.
  revert i. induction l as [|x l IH]; intros i Hl Hs; [discriminate|].
  destruct i as [|i].
  - cbn in Hl. injection Hl as ->. cbn [insert list_insert count].
    rewrite Hs. lia.
  - cbn in Hl. specialize (IH i Hl Hs).
    change (<[S i := s']> (x :: l)) with (x :: <[i := s']> l).
    cbn [count]. rewrite IH. lia.
Qed.

Section Invariants.
Context `{Platform}.

Lemma reply_truthy data text : reply data = Some text -> ToBoolean text = true.
Proof.
  unfold reply.
  assert (Hgen :
    (if ToBoolean (optional_get data (lit "answer"))
     then Some (optional_get data (lit "answer"))
     else if ToBoolean (optional_get data (lit "error"))
          then Some (optional_get data (lit "error"))
          else Some (JString sorry)) = Some text -> ToBoolean text = true).
  { destruct (ToBoolean (optional_get data (lit "answer"))) eqn:Ea.
    - intros [= <-]. exact Ea.
    - destruct (ToBoolean (optional_get data (lit "error"))) eqn:Ee.
      + intros [= <-]. exact Ee.
      + intros [= <-]. reflexivity. }
  destruct data; first [discriminate | exact Hgen].
Qed.

Lemma settle_balanced call text st s :
  calls st !! call = Some s -> is_settled s = false ->
  balanced st -> balanced (settle call text st).
Proof.
  intros Hc Hs [Hu Ha]. unfold balanced, settle. cbn [bubbles calls].
  rewrite !count_app, length_insert, (count_insert _ _ _ Settled Hc Hs).
  rewrite Hu, Ha. cbn. split; lia.
Qed.

Lemma step_balanced st ev st' :
  step st ev = Some st' -> balanced st -> balanced st'.
Proof.
  intros Hstep Hb. destruct ev as [value| |call|call|call data|call]; cbn [step] in Hstep.
  - injection Hstep as <-. exact Hb.
  - injection Hstep as <-. unfold sendMessage.
    destruct (str_eqb _ _); [exact Hb|].
    destruct Hb as [Hu Ha]. unfold balanced. cbn [bubbles calls].
    rewrite !count_app, length_app.
    rewrite Hu, Ha. cbn. split; lia.
  - destruct (calls st !! call) as [[| |]|] eqn:Hc; injection Hstep as <-; try exact Hb.
    destruct Hb as [Hu Ha]. unfold balanced. cbn [bubbles calls].
    rewrite length_insert, (count_insert _ _ _ AwaitJson Hc eq_refl).
    cbn [is_settled]. split; [exact Hu | lia].
  - destruct (calls st !! call) as [[| |]|] eqn:Hc; injection Hstep as <-; try exact Hb.
    eapply settle_balanced; [exact Hc | reflexivity | exact Hb].
  - destruct (calls st !! call) as [[| |]|] eqn:Hc; try (injection Hstep as <-; exact Hb).
    destruct (reply data) as [text|]; [|discriminate]. injection Hstep as <-.
    eapply settle_balanced; [exact Hc | reflexivity | exact Hb].
  - destruct (calls st !! call) as [[| |]|] eqn:Hc; injection Hstep as <-; try exact Hb.
    eapply settle_balanced; [exact Hc | reflexivity | exact Hb].
Qed.

Lemma step_truthy st ev st' :
  step st ev = Some st' ->
  Forall (fun b => ToBoolean (bubble_text b) = true) (bubbles st) ->
  Forall (fun b => ToBoolean (bubble_text b) = true) (bubbles st').
Proof.
  intros Hstep Hb.
  assert (Hsettle : forall call text, ToBoolean text = true ->
            Forall (fun b => ToBoolean (bubble_text b) = true)
              (bubbles (settle call text st))).
  { intros call text Ht. unfold settle. cbn [bubbles].
    apply Forall_app. split; [exact Hb|]. constructor; [exact Ht | constructor]. }
  destruct ev as [value| |call|call|call data|call]; cbn [step] in Hstep.
  - injection Hstep as <-. exact Hb.
  - injection Hstep as <-. unfold sendMessage, str_eqb.
    case_bool_decide as He; [exact Hb|]. cbn [bubbles].
    apply Forall_app. split; [exact Hb|]. constructor; [|constructor].
    cbn. unfold str_eqb. rewrite bool_decide_eq_false_2 by exact He. reflexivity.
  - destruct (calls st !! call) as [[| |]|]; injection Hstep as <-; exact Hb.
  - destruct (calls st !! call) as [[| |]|]; injection Hstep as <-; try exact Hb.
    apply Hsettle. reflexivity.
  - destruct (calls st !! call) as [[| |]|]; try (injection Hstep as <-; exact Hb).
    destruct (reply data) as [text|] eqn:Hr; [|discriminate]. injection Hstep as <-.
    apply Hsettle. eapply reply_truthy, Hr.
  - destruct (calls st !! call) as [[| |]|]; injection Hstep as <-; try exact Hb.
    apply Hsettle. reflexivity.
Qed.

(** X21. Without streaming, however the calls overlap: every question shown
    belongs to one call of [sendMessage], and every call appends exactly
    one answer, when it leaves; no answer comes without a question, none
    comes twice. *)
Theorem one_answer_per_call evs :
  match run mounted evs with
  | Some st =>
      count is_user (bubbles st) = length (calls st) /\
      count (fun b => negb (is_user b)) (bubbles st) =
        S (count is_settled (calls st))
  | None => True
  end.
Proof.
  assert (Hgen : forall st, balanced st ->
            match run st evs with Some st' => balanced st' | None => True end).
  { induction evs as [|ev evs IH]; intros st Hb; cbn [run]; [exact Hb|].
    destruct (step st ev) as [st1|] eqn:Hs; [|exact I].
    apply IH. eapply step_balanced; eassumption. }
  apply (Hgen mounted). split; reflexivity.
Qed.

(** X22. No message is ever empty: the text of every message is a truthy
    value, the answer being [data.answer], else [data.error], else the
    fixed apology. *)
Theorem no_empty_message evs :
  match run mounted evs with
  | Some st => Forall (fun b => ToBoolean (bubble_text b) = true) (bubbles st)
  | None => True
  end.
Proof.
  assert (Hgen : forall st,
            Forall (fun b => ToBoolean (bubble_text b) = true) (bubbles st) ->
            match run st evs with
            | Some st' => Forall (fun b => ToBoolean (bubble_text b) = true) (bubbles st')
            | None => True
            end).
  { induction evs as [|ev evs IH]; intros st Hb; cbn [run]; [exact Hb|].
    destruct (step st ev) as [st1|] eqn:Hs; [|exact I].
    apply IH. eapply step_truthy; eassumption. }
  apply (Hgen mounted). constructor; [reflexivity | constructor].
Qed.

End Invariants.

End PlainChatFacts.

(** * Further properties of whole sessions *)

Section MoreSessions.
Context `{Platform}.

(** X1. The later revision treats a stream as if all its bytes had come
    in one chunk, whatever the chunks are. *)
Theorem cancel_reader_chunks_as_one question chunks :
  run CancelReader initial (session question chunks) =
  run CancelReader initial (session question [concat chunks]).
Proof.
  apply cancel_reader_chunking_irrelevant.
  cbn [concat]. rewrite app_nil_r. reflexivity.
Qed.

(** X3. On a stream in which the loop reaches no [end] frame the two
    revisions go through the same states and end with the same
    conversation. *)
Theorem revisions_agree_without_end question chunks :
  sees_end (opened (trim question)) (concat chunks) = false ->
  run BreakOnly initial (session question chunks) =
  run CancelReader initial (session question chunks).
Proof.
  intros Hs. unfold session.
  rewrite (run_app BreakOnly initial [Typed question; Send; Response 200 true]).
  rewrite (run_app CancelReader initial [Typed question; Send; Response 200 true]).
  destruct (decide (trim question = [])) as [He|Hne].
  - rewrite !session_refused by exact He. cbn [bind].
    rewrite !idle_ignores_network
      by (first [reflexivity | apply chunks_then_done_are_network]).
    reflexivity.
  - rewrite !session_opens by exact Hne. cbn [bind].
    rewrite !run_app.
    rewrite (chunks_concat BreakOnly chunks) by (first [reflexivity | right; exact Hs]).
    rewrite (chunks_concat CancelReader chunks) by (first [reflexivity | left; reflexivity]).
    rewrite step_chunk_variants by exact Hs. reflexivity.
Qed.

(** X4. Once the loop of the later revision has reached [end] in a
    chunk, nothing that follows counts: neither more bytes in the same
    chunk nor anything the network delivers afterwards changes the state
    the call has ended in. *)
Theorem cancel_reader_ignores_what_follows_end st value more evs :
  sees_end st value = true ->
  Forall (fun ev => is_network ev = true) evs ->
  run CancelReader st (Chunk (value ++ more) :: evs) =
  step CancelReader st (Chunk value).
Proof.
  intros Hs Hall. cbn [run].
  rewrite (chunk_app CancelReader st value more (or_introl eq_refl)).
  destruct (cancel_reader_end_is_final st value Hs) as (st' & -> & Hi & _ & Hrest).
  cbn [bind step]. rewrite Hi. cbn [bind]. apply Hrest, Hall.
Qed.

(** X10. A body in which no two line-feed bytes come in a row shows
    nothing, whatever its bytes and however they are cut into chunks: no
    frame is ever complete, so the message that [sendMessage] opened stays
    empty, nothing is reported, and the call ends when the stream closes.
    A stream whose lines end with a carriage return and a line feed is
    such a body, and so is a body that is one JSON document. *)
Theorem body_without_blank_line_shows_nothing v question chunks :
  trim question <> [] ->
  indexOf (map TextDecoder.byte_value (concat chunks)) delimiter = -1 ->
  exists st',
    run v initial (session question chunks) = Ok st' /\
    messages st' =
      messages initial ++ [{| role := user; text := trim question |};
                           {| role := ai; text := [] |}] /\
    applied st' = [] /\
    loading st' = false /\
    phase st' = Idle.
Proof.
  intros Hne Hbytes.
  apply LineFeeds.decode_without_blank_line in Hbytes as Hnone.
  set (st := opened (trim question)).
  assert (Hp : phase st = AwaitRead TextDecoder.new []) by reflexivity.
  assert (Hs : sees_end st (concat chunks) = false).
  { unfold sees_end. rewrite Hp.
    destruct (TextDecoder.decode TextDecoder.new (concat chunks)) as [d1 s1].
    cbn [snd app] in *. rewrite frames_without_frame by exact Hnone. reflexivity. }
  unfold session. rewrite run_app, session_opens by exact Hne. cbn [bind].
  fold st. rewrite run_app, (chunks_concat v chunks st eq_refl (or_intror Hs)).
  rewrite (step_chunk _ _ _ _ _ Hp). unfold on_chunk.
  destruct (TextDecoder.decode TextDecoder.new (concat chunks)) as [d1 s1].
  cbn [snd app] in *. rewrite frames_without_frame by exact Hnone.
  cbn [bind saw_end].
  eexists. split; [destruct v; reflexivity|].
  repeat split.
Qed.

End MoreSessions.

(** * The properties at examples *)

Module MoreWitnesses.
Import Reference Examples MoreExamples.
#[local] Existing Instance browser.

Lemma break_only_chunking_witness :
  concat cut_delta = concat whole_delta /\
  sees_end (opened (trim (lit " hi "))) (concat cut_delta) = false /\
  run BreakOnly initial (session (lit " hi ") cut_delta) =
  run BreakOnly initial (session (lit " hi ") whole_delta).
Proof.
  split; [reflexivity|]. split; [vm_compute; reflexivity|].
  apply (break_only_chunking_irrelevant (lit " hi ") cut_delta whole_delta);
    [reflexivity | vm_compute; reflexivity].
Defined.

Lemma revisions_agree_witness :
  sees_end (opened (trim (lit " hi "))) (concat cut_delta) = false /\
  run BreakOnly initial (session (lit " hi ") cut_delta) =
  run CancelReader initial (session (lit " hi ") cut_delta).
Proof.
  split; [vm_compute; reflexivity|].
  apply (revisions_agree_without_end (lit " hi ") cut_delta).
  vm_compute; reflexivity.
Defined.


Lemma carriage_returns_witness :
  trim (lit "hi") <> [] /\
  indexOf (map TextDecoder.byte_value (concat carriage_returns)) delimiter = -1 /\
  exists st',
    run BreakOnly initial (session (lit "hi") carriage_returns) = Ok st' /\
    messages st' =
      messages initial ++ [{| role := user; text := trim (lit "hi") |};
                           {| role := ai; text := [] |}] /\
    applied st' = [] /\
    loading st' = false /\
    phase st' = Idle.
Proof.
  split; [vm_compute; discriminate|]. split; [vm_compute; reflexivity|].
  apply (body_without_blank_line_shows_nothing BreakOnly (lit "hi") carriage_returns);
    [vm_compute; discriminate | vm_compute; reflexivity].
Defined.

Lemma what_follows_end_witness :
  sees_end (opened (lit "hi")) up_to_end = true /\
  run CancelReader (opened (lit "hi"))
    [Chunk (up_to_end ++ after_end); Chunk after_end; Done] =
  step CancelReader (opened (lit "hi")) (Chunk up_to_end).
Proof.
  split; [vm_compute; reflexivity|].
  apply (cancel_reader_ignores_what_follows_end (opened (lit "hi")) up_to_end after_end);
    [vm_compute; reflexivity | repeat constructor].
Defined.

Lemma unterminated_witness :
  phase (opened (lit "hi")) = AwaitRead TextDecoder.new [] /\
  indexOf ([] ++ snd (TextDecoder.decode TextDecoder.new (concat unterminated)))
    delimiter = -1 /\
  exists st',
    run BreakOnly (opened (lit "hi")) (map Chunk unterminated ++ [Done]) = Ok st' /\
    messages st' = messages (opened (lit "hi")) /\
    applied st' = applied (opened (lit "hi")) /\
    loading st' = false /\
    phase st' = Idle.
Proof.
  split; [reflexivity|]. split; [vm_compute; reflexivity|].
  apply (unterminated_text_is_dropped BreakOnly (opened (lit "hi")) TextDecoder.new []);
    [reflexivity | vm_compute; reflexivity].
Defined.

Lemma data_frames_witness :
  Forall (Forall (fun u => u <> 10)) payloads /\
  indexOf (lit "data: {") delimiter = -1 /\
  frames (data_frames payloads ++ lit "data: {") fresh =
    dispatch payloads (lit "data: {") fresh /\
  dispatch payloads (lit "data: {") fresh =
    Ok {| exit_buffer := data_frames [text_of "{'delta':'late'}"] ++ lit "data: {";
          exit_chat :=
            {| chat_messages :=
                 messages initial ++ [{| role := user; text := lit "hi" |};
                                      {| role := ai; text := lit "Hello" |}];
               chat_applied := [DeltaApplied (lit "Hel"); DeltaApplied (lit "lo")] |};
          saw_end := true |}.
Proof.
  assert (Hp : Forall (Forall (fun u => u <> 10)) payloads).
  { vm_compute. repeat (constructor; try discriminate). }
  split; [exact Hp|]. split; [reflexivity|].
  split; [|vm_compute; reflexivity].
  apply (frames_of_data_frames payloads (lit "data: {") fresh Hp). reflexivity.
Defined.

Lemma no_object_witness :
  JSON_parse (lit "42") = Some (JNumber (lit "42")) /\
  on_data (lit "42") fresh = Ok (Continue fresh).
Proof.
  split; [vm_compute; reflexivity|].
  apply (json_that_is_no_object_is_ignored (lit "42") (JNumber (lit "42")) fresh);
    [vm_compute; discriminate | vm_compute; reflexivity | discriminate].
Defined.

Lemma trailing_slash_witness :
  lit "https://api.example.org" <> [] /\
  last (lit "https://api.example.org") <> Some 47 /\
  Api.getApiBase (Some (lit "https://api.example.org" ++ [47])) =
    lit "https://api.example.org" /\
  Api.getApiBase (Some (lit "https://api.example.org")) =
    lit "https://api.example.org".
Proof.
  split; [vm_compute; discriminate|]. split; [vm_compute; discriminate|].
  apply (ApiFacts.trailing_slash_is_immaterial (lit "https://api.example.org"));
    vm_compute; discriminate.
Defined.

Lemma fallback_witness :
  Facts.facts_of (Some two_facts) = Some [lit "a fact"; lit "2"] /\
  forall fallback st,
    Facts.box_facts (Facts.box_load None (Some two_facts) fallback st) =
      [lit "a fact"; lit "2"] /\
    Facts.box_fetched (Facts.box_load None (Some two_facts) fallback st) =
      Facts.box_fetched st ++ [Facts.facts_url None] /\
    Facts.facts (Facts.load None (Some two_facts) fallback Facts.mounted) =
      [lit "a fact"; lit "2"] /\
    Facts.fetched (Facts.load None (Some two_facts) fallback Facts.mounted) =
      [Facts.facts_url None].
Proof.
  split; [vm_compute; reflexivity|].
  apply (FactsFacts.fallback_only_after_backend_fails None (Some two_facts)
           [lit "a fact"; lit "2"]);
    [vm_compute; reflexivity | discriminate].
Defined.

End MoreWitnesses.
